(** * Equirectangular sampling: crop-aware grid, reprojection trace and poses

    A shallow embedding of [nerfstudio/process_data/equirect_utils.py] and
    of the control flow of its two callers, the [main] methods of
    [images_to_nerfstudio_dataset.py] and
    [lantern_images_to_nerfstudio_dataset.py].

    Number model.  The Python code mixes [int] and [float]; both are
    embedded as exact rationals [Q] (a float is a dyadic rational, and
    every operation below is performed without rounding).  The trigonometric
    part of the pose derivation is carried out over [R].  Rounding of
    IEEE-754 doubles and the [float32] cast of the poses are outside the
    model.

    Error model.  Python exceptions are the [Raise] branch of [Result].
    A ring bound is an [option Q]: [None] is Python's [None], the
    "removed" sentinel. *)

From Stdlib Require Import QArith Qround Reals Psatz RNsatz ZArith.
From Stdlib Require Import String Ascii DecimalString DecimalNat.
From stdpp Require Import base list gmap strings.

Local Open Scope Q_scope.

(** ** Python runtime prelude *)

Module Py.

Inductive Exn : Type :=
  | TypeError
  | KeyError
  | UnboundLocalError
  | LinAlgError
  | Exception (msg : string)
  | SystemExit (code : Z).

Inductive Result (A : Type) : Type :=
  | Ok (a : A)
  | Raise (e : Exn).
Arguments Ok {A} a.
Arguments Raise {A} e.

#[export] Instance Result_ret : MRet Result := λ A a, Ok a.
#[export] Instance Result_bind : MBind Result := λ A B k m,
  match m with
  | Ok a => k a
  | Raise e => Raise e
  end.

(** [x < y] and [x > y] on numbers. *)
Definition num_lt (x y : Q) : bool :=
  match x ?= y with Lt => true | _ => false end.
Definition num_gt (x y : Q) : bool := num_lt y x.

(** [x < y] where [x] may be [None]: ordering [None] against a number
    raises [TypeError]. *)
Definition lt_val (x : option Q) (y : Q) : Result bool :=
  match x with
  | Some a => Ok (num_lt a y)
  | None => Raise TypeError
  end.
Definition gt_val (x : option Q) (y : Q) : Result bool :=
  match x with
  | Some a => Ok (num_gt a y)
  | None => Raise TypeError
  end.

(** [x - d] and [x + d] where [x] may be [None]. *)
Definition sub_val (x : option Q) (d : Q) : Result (option Q) :=
  match x with
  | Some a => Ok (Some (a - d))
  | None => Raise TypeError
  end.
Definition add_val (x : option Q) (d : Q) : Result (option Q) :=
  match x with
  | Some a => Ok (Some (a + d))
  | None => Raise TypeError
  end.

(** [2 ** n] for a non-negative [int] exponent. *)
Definition pow2 (n : nat) : Q := inject_Z (2 ^ Z.of_nat n).

(** [range(i - 1, -1, -1)] and [range(i + 1, n)]. *)
Definition range_down (i : nat) : list nat := rev (seq 0 i).
Definition range_up (i n : nat) : list nat := seq (S i) (n - S i).

(** [list(enumerate(l))]: a snapshot of the indexed entries. *)
Definition enumerate {A} (l : list A) : list (nat * A) :=
  zip (seq 0 (length l)) l.

(** [np.arange(start, stop, step)]: [ceil((stop - start) / step)] values
    [start + k * step], none when that count is not positive. *)
Definition arange (start stop step : Q) : list Q :=
  let n := Z.to_nat (Qceiling ((stop - start) / step)) in
  map (λ k, start + inject_Z (Z.of_nat k) * step) (seq 0 n).

(** *** Strings *)

Definition lower_ascii (c : ascii) : ascii :=
  let n := nat_of_ascii c in
  if (65 <=? n)%nat && (n <=? 90)%nat then ascii_of_nat (n + 32) else c.

(** [s.lower()] on ASCII file names. *)
Fixpoint lower (s : string) : string :=
  match s with
  | EmptyString => EmptyString
  | String c s' => String (lower_ascii c) (lower s')
  end.

Definition endswith (s suf : string) : bool :=
  (String.length suf <=? String.length s)%nat
  && String.eqb
       (substring (String.length s - String.length suf) (String.length suf) s)
       suf.

(** [s.endswith((a, b, ...))] with a tuple of suffixes. *)
Definition endswith_any (s : string) (sufs : list string) : bool :=
  existsb (endswith s) sufs.

(** [s[:-n]] and [s[0:n]]. *)
Definition drop_last (n : nat) (s : string) : string :=
  substring 0 (String.length s - n) s.
Definition slice_to (n : nat) (s : string) : string := substring 0 n s.

(** [s.split(".")[0]]: the text before the first dot. *)
Fixpoint before_dot (s : string) : string :=
  match s with
  | EmptyString => EmptyString
  | String c s' => if Ascii.eqb c "." then EmptyString
                   else String c (before_dot s')
  end.

(** [s.replace(old, new)] for a non-empty [old]: every occurrence, left to
    right, without overlap.  [skip] counts the characters of a match still
    to be dropped. *)
Fixpoint replace_from (old new : string) (skip : nat) (s : string) : string :=
  match s with
  | EmptyString => EmptyString
  | String c s' =>
      match skip with
      | S k => replace_from old new k s'
      | O =>
          if String.prefix old s
          then new +:+ replace_from old new (String.length old - 1) s'
          else String c (replace_from old new 0 s')
      end
  end.
Definition replace (s old new : string) : string := replace_from old new 0 s.

(** [str(n)] for a non-negative [int]. *)
Definition str_of_nat (n : nat) : string :=
  NilEmpty.string_of_uint (Nat.to_uint n).

(** [os.path.join(d, name)] for a relative [name], and [str(d / name)]. *)
Definition path_join (d name : string) : string := d +:+ "/" +:+ name.

(** [torch.pi], the double nearest to pi, as the rational it denotes. *)
Definition torch_pi : Q := 884279719003555 # 281474976710656.

End Py.

Import Py.

(** ** CropBoundSolver *)

Abbreviation RingBounds := (list (option Q)).

Definition new_bottom_start (fov crop_factor : Q) : Q :=
  let degrees_chopped := 180 * crop_factor in
  90 - degrees_chopped - fov / 2.

Definition new_top_start (fov crop_factor : Q) : Q :=
  let degrees_chopped := 180 * crop_factor in
  -90 + degrees_chopped + fov / 2.

(** [for j in range(i - 1, -1, -1): bound_arr[j] -= diff / (2 ** (i - j))] *)
Fixpoint bottom_redistribute (bound_arr : RingBounds) (diff : Q) (i : nat)
    (js : list nat) : Result RingBounds :=
  match js with
  | [] => Ok bound_arr
  | j :: js' =>
      v ← sub_val (mjoin (bound_arr !! j)) (diff / pow2 (i - j)) ;
      bottom_redistribute (<[j := v]> bound_arr) diff i js'
  end.

(** The loop of [_crop_bottom] over the reversed snapshot
    [reversed(list(enumerate(bound_arr)))]; [el] comes from the snapshot. *)
Fixpoint bottom_scan (start fov : Q) (todo : list (nat * option Q))
    (bound_arr : RingBounds) : Result RingBounds :=
  match todo with
  | [] => Ok bound_arr
  | (i, el) :: todo' =>
      far ← gt_val el (start + fov / 2) ;
      if far : bool then bottom_scan start fov todo' (<[i := None]> bound_arr)
      else
        part ← gt_val el start ;
        if part : bool then
          match el with
          | Some e =>
              let diff := e - start in
              bottom_redistribute (<[i := Some start]> bound_arr) diff i
                (range_down i)
          | None => Raise TypeError
          end
        else bottom_scan start fov todo' bound_arr
  end.

Definition _crop_bottom (bound_arr : RingBounds) (fov crop_factor : Q)
    : Result RingBounds :=
  bottom_scan (new_bottom_start fov crop_factor) fov
    (rev (enumerate bound_arr)) bound_arr.

(** [for j in range(i + 1, len(bound_arr)): bound_arr[j] += diff / (2 ** (j - i))] *)
Fixpoint top_redistribute (bound_arr : RingBounds) (diff : Q) (i : nat)
    (js : list nat) : Result RingBounds :=
  match js with
  | [] => Ok bound_arr
  | j :: js' =>
      v ← add_val (mjoin (bound_arr !! j)) (diff / pow2 (j - i)) ;
      top_redistribute (<[j := v]> bound_arr) diff i js'
  end.

(** The loop of [_crop_top] over [enumerate(bound_arr)]: the iterator is
    lazy, so [el] is read from the live list at each index. *)
Fixpoint top_scan (start fov : Q) (todo : list nat)
    (bound_arr : RingBounds) : Result RingBounds :=
  match todo with
  | [] => Ok bound_arr
  | i :: todo' =>
      let el := mjoin (bound_arr !! i) in
      far ← lt_val el (start - fov / 2) ;
      if far : bool then top_scan start fov todo' (<[i := None]> bound_arr)
      else
        part ← lt_val el start ;
        if part : bool then
          match el with
          | Some e =>
              let diff := start - e in
              top_redistribute (<[i := Some start]> bound_arr) diff i
                (range_up i (length bound_arr))
          | None => Raise TypeError
          end
        else top_scan start fov todo' bound_arr
  end.

Definition _crop_top (bound_arr : RingBounds) (fov crop_factor : Q)
    : Result RingBounds :=
  top_scan (new_top_start fov crop_factor) fov
    (seq 0 (length bound_arr)) bound_arr.

(** Crop fractions in the documented order [(top, bottom, left, right)]. *)
Record CropFactor : Type := mkCrop {
  crop0 : Q;   (* crop_factor[0]: top *)
  crop1 : Q;   (* crop_factor[1]: bottom *)
  crop2 : Q;   (* crop_factor[2]: left *)
  crop3 : Q    (* crop_factor[3]: right *)
}.

Definition _crop_bound_arr_vertical (bound_arr : RingBounds) (fov : Q)
    (crop_factor : CropFactor) : Result RingBounds :=
  bound_arr ←
    (if num_gt (crop1 crop_factor) 0
     then _crop_bottom bound_arr fov (crop1 crop_factor)
     else Ok bound_arr) ;
  if num_gt (crop0 crop_factor) 0
  then _crop_top bound_arr fov (crop0 crop_factor)
  else Ok bound_arr.


(** ** SampleGridBuilder *)

(** Lines 145-149: the yaw interval. *)
Definition horizontal_bounds (crop_factor : CropFactor) : Q * Q :=
  let left_bound :=
    if num_gt (crop3 crop_factor) 0 then -180 + 360 * crop3 crop_factor
    else -180 in
  let right_bound :=
    if num_gt (crop2 crop_factor) 0 then 180 - 360 * crop2 crop_factor
    else 180 in
  (left_bound, right_bound).

(** [if bound_arr[k] is not None: for i in np.arange(...):
       yaw_pitch_pairs.append((i, bound_arr[k]))] *)
Definition ring (bound_arr : RingBounds) (k : nat)
    (left_bound right_bound step : Q) : list (Q * Q) :=
  match mjoin (bound_arr !! k) with
  | Some pitch => map (λ i, (i, pitch)) (arange left_bound right_bound step)
  | None => []
  end.

Record SampleGrid : Type := mkGrid {
  grid_fov : Q;
  yaw_pitch_pairs : list (Q * Q)
}.

(** Lines 143-177 (and their copies at 308-341 and 505-538). *)
Definition sample_grid (samples_per_im : Z) (crop_factor : CropFactor)
    : Result SampleGrid :=
  let '(left_bound, right_bound) := horizontal_bounds crop_factor in
  if (samples_per_im =? 8)%Z then
    let fov := 120 in
    bound_arr ← _crop_bound_arr_vertical [Some (-45); Some 0; Some 45]
                  fov crop_factor ;
    Ok (mkGrid fov
          (ring bound_arr 1 left_bound right_bound 90
           ++ ring bound_arr 2 left_bound right_bound 180
           ++ ring bound_arr 0 left_bound right_bound 180))
  else if (samples_per_im =? 14)%Z then
    let fov := 110 in
    bound_arr ← _crop_bound_arr_vertical [Some (-45); Some 0; Some 45]
                  fov crop_factor ;
    Ok (mkGrid fov
          (ring bound_arr 1 left_bound right_bound 60
           ++ ring bound_arr 2 left_bound right_bound 90
           ++ ring bound_arr 0 left_bound right_bound 90))
  else Ok (mkGrid 120 []).

(** Lines 136-139: [sys.exit(1)] on a fraction outside [0, 1]. *)
Definition check_crop_factor (crop_factor : CropFactor) : Result () :=
  let bad i := num_lt i 0 || num_gt i 1 in
  if existsb bad [crop0 crop_factor; crop1 crop_factor;
                  crop2 crop_factor; crop3 crop_factor]
  then Raise (SystemExit 1)
  else Ok ().

(** ** Reprojector *)

(** The external warp object [Equi2Pers(height, width, fov_x, mode)]. *)
Record Equi2Pers : Type := mkEqui2Pers {
  height : option Z;
  width : option Z;
  fov_x : Q;
  mode : string
}.

(** The [rots] dictionary of one warp call. *)
Record Rots : Type := mkRots {
  roll : Q;
  pitch : Q;
  yaw : Q
}.

Inductive Channel : Type :=
  | Color | Mask | Hdr | MaskE1 | MaskE2 | E1 | E2.

(** What the direction loop does to the outside world: calls of the warp
    object ([clip_output] is [None] when the keyword is not passed) and
    [cv2.imwrite] calls. *)
Inductive Event : Type :=
  | Warp (proj : Equi2Pers) (ch : Channel) (rots : Rots)
         (clip_output : option bool)
  | ImWrite (path : string) (ch : Channel).

(** [v_rad = torch.pi * v_deg / 180.0] *)
Definition deg2rad (deg : Q) : Q := torch_pi * deg / 180.

Definition rots_of (d : Q * Q) : Rots :=
  let '(u_deg, v_deg) := d in
  let v_rad := deg2rad v_deg in
  let u_rad := deg2rad u_deg in
  mkRots 0 v_rad u_rad.

Definition image_exts : list string := [".jpg"; ".png"; ".jpeg"; ".exr"].

Definition is_exr (i : string) : bool := endswith (lower i) ".exr".

(** [f"{d}/{i[:-4]}_{count}.{ext}"] *)
Definition out_path (d i : string) (count : nat) (ext : string) : string :=
  d +:+ "/" +:+ drop_last 4 i +:+ "_" +:+ str_of_nat count +:+ "." +:+ ext.

(** [for count, d in enumerate(dirs)]: the body run at each direction with
    its running [count]. *)
Definition for_directions {A} (body : nat → Q * Q → list A)
    (dirs : list (Q * Q)) : list A :=
  concat (imap body dirs).

Section Reprojector.

(** [os.path.isfile] *)
Variable isfile : string → bool.

(** *** generate_planar_projections_from_equirectangular *)

Record Options : Type := mkOptions {
  image_dir : string;
  planar_image_size : Z * Z;
  samples_per_im : Z;
  mask_dir : option string;
  hdr_dir : option string;
  crop_factor : CropFactor;
  is_HDR : bool;
  HDR_planar_image_size : option Z * option Z
}.

Definition equi2pers_of (o : Options) (fov : Q) : Equi2Pers :=
  mkEqui2Pers (Some (snd (planar_image_size o)))
    (Some (fst (planar_image_size o))) fov "bilinear".

(** Lines 179 and 193-194. *)
Definition equi2pers_hdr_of (o : Options) (fov : Q) : Equi2Pers :=
  match hdr_dir o with
  | Some _ =>
      mkEqui2Pers (snd (HDR_planar_image_size o))
        (fst (HDR_planar_image_size o)) fov "bilinear"
  | None => equi2pers_of o fov
  end.

Definition output_dir (o : Options) : string :=
  path_join (image_dir o) "planar_projections".
Definition output_mask_dir (o : Options) : string :=
  path_join (image_dir o) "mask_planar_projections".
Definition output_hdr_dir (o : Options) : string :=
  path_join (image_dir o) "hdr_planar_projections".

(** Lines 217-238: the companion files of panorama [i] must exist. *)
Definition load_companions (o : Options) (i : string) : Result () :=
  _ ← match mask_dir o with
      | Some md =>
          let mask_addr := path_join md i in
          if isfile mask_addr then Ok ()
          else Raise (Exception
                 ("The corresponding mask for " +:+ i +:+ " does not exist!!!"))
      | None => Ok ()
      end ;
  match hdr_dir o with
  | Some hd =>
      let hdr_addr := path_join hd i in
      hdr_addr ←
        (if is_HDR o then
           if endswith hdr_addr ".png" then Ok (replace hdr_addr ".png" ".exr")
           else if endswith hdr_addr ".jpg"
                then Ok (replace hdr_addr ".jpg" ".exr")
           else Raise (Exception
                  ("Image format for " +:+ i +:+ " is not supported!!!"))
         else Ok hdr_addr) ;
      if isfile hdr_addr then Ok ()
      else Raise (Exception
             ("The corresponding HDR for " +:+ i +:+ " does not exist!!!"))
  | None => Ok ()
  end.

(** Lines 242-272: one pass of the direction loop. *)
Definition direction_events (o : Options) (fov : Q) (i : string)
    (count : nat) (d : Q * Q) : list Event :=
  let rots := rots_of d in
  [Warp (equi2pers_of o fov) Color rots None]
  ++ (if mask_dir o is Some _ then [Warp (equi2pers_hdr_of o fov) Mask rots None]
      else [])
  ++ (if hdr_dir o is Some _ then [Warp (equi2pers_hdr_of o fov) Hdr rots (Some false)]
      else [])
  ++ [ImWrite (out_path (output_dir o) i count
                 (if is_exr i then "exr" else "png")) Color]
  ++ (if mask_dir o is Some _ then [ImWrite (out_path (output_mask_dir o) i count "png")
                            Mask]
      else [])
  ++ (if hdr_dir o is Some _ then [ImWrite (out_path (output_hdr_dir o) i count
                                   (if is_HDR o then "exr" else "png")) Hdr]
      else []).

(** Lines 207-272: everything done for the directory entry [i]. *)
Definition pano_events (o : Options) (g : SampleGrid) (i : string)
    : Result (list Event) :=
  if endswith_any (lower i) image_exts then
    _ ← load_companions o i ;
    Ok (for_directions (direction_events o (grid_fov g) i)
          (yaw_pitch_pairs g))
  else Ok [].

Fixpoint batch_events (pano : string → Result (list Event))
    (files : list string) : Result (list Event) :=
  match files with
  | [] => Ok []
  | i :: files' =>
      ev ← pano i ;
      evs ← batch_events pano files' ;
      Ok (ev ++ evs)
  end.

Definition generate_planar_projections_from_equirectangular
    (o : Options) (listdir : list string) : Result (list Event) :=
  _ ← check_crop_factor (crop_factor o) ;
  g ← sample_grid (samples_per_im o) (crop_factor o) ;
  batch_events (pano_events o g) listdir.

(** *** generate_planar_projections_from_equirectangular_with_two_exposures *)

Record Options2 : Type := mkOptions2 {
  image_dir2 : string;
  planar_image_size2 : Z * Z;
  samples_per_im2 : Z;
  mask_e1_dir : string;
  mask_e2_dir : string;
  e1_dir : string;
  e2_dir : string;
  crop_factor2 : CropFactor
}.

Definition equi2pers_of2 (o : Options2) (fov : Q) : Equi2Pers :=
  mkEqui2Pers (Some (snd (planar_image_size2 o)))
    (Some (fst (planar_image_size2 o))) fov "bilinear".

(** Lines 393-402 and 408-417: the address of an exposure raster. *)
Definition exposure_addr (d i tag : string) : Result string :=
  let addr := path_join d i in
  addr ←
    (if endswith addr ".png" then Ok (replace addr ".png" ".exr")
     else if endswith addr ".jpg" then Ok (replace addr ".jpg" ".exr")
     else Raise (Exception
            ("Image format for " +:+ i +:+ " is not supported!!!"))) ;
  Ok (replace addr ".exr" ("_" +:+ tag +:+ ".exr")).

Definition require_file (addr msg : string) : Result () :=
  if isfile addr then Ok () else Raise (Exception msg).

(** Lines 377-423. *)
Definition load_companions2 (o : Options2) (i : string) : Result () :=
  _ ← require_file (replace (path_join (mask_e1_dir o) i) ".png" "_e1.png")
        ("The corresponding mask E1 for " +:+ i +:+ " does not exist!!!") ;
  _ ← require_file (replace (path_join (mask_e2_dir o) i) ".png" "_e2.png")
        ("The corresponding mask E2 for " +:+ i +:+ " does not exist!!!") ;
  e1_addr ← exposure_addr (e1_dir o) i "e1" ;
  _ ← require_file e1_addr
        ("The corresponding e1 for " +:+ i +:+ " does not exist!!!") ;
  e2_addr ← exposure_addr (e2_dir o) i "e2" ;
  require_file e2_addr
    ("The corresponding e1 for " +:+ i +:+ " does not exist!!!").

(** Lines 427-461. *)
Definition direction_events2 (o : Options2) (fov : Q) (i : string)
    (count : nat) (d : Q * Q) : list Event :=
  let rots := rots_of d in
  let equi2pers := equi2pers_of2 o fov in
  let dir name := path_join (image_dir2 o) name in
  [Warp equi2pers Color rots None;
   Warp equi2pers MaskE1 rots None;
   Warp equi2pers MaskE2 rots None;
   Warp equi2pers E1 rots (Some false);
   Warp equi2pers E2 rots (Some false);
   ImWrite (out_path (dir "planar_projections") i count
              (if is_exr i then "exr" else "png")) Color;
   ImWrite (out_path (dir "mask_e1_planar_projections") i count "png") MaskE1;
   ImWrite (out_path (dir "mask_e2_planar_projections") i count "png") MaskE2;
   ImWrite (out_path (dir "e1_planar_projections") i count "exr") E1;
   ImWrite (out_path (dir "e2_planar_projections") i count "exr") E2].

Definition pano_events2 (o : Options2) (g : SampleGrid) (i : string)
    : Result (list Event) :=
  if endswith_any (lower i) [".jpg"; ".png"; ".jpeg"] then
    _ ← load_companions2 o i ;
    Ok (for_directions (direction_events2 o (grid_fov g) i)
          (yaw_pitch_pairs g))
  else Ok [].

Definition generate_planar_projections_from_equirectangular_with_two_exposures
    (o : Options2) (listdir : list string) : Result (list Event) :=
  _ ← check_crop_factor (crop_factor2 o) ;
  g ← sample_grid (samples_per_im2 o) (crop_factor2 o) ;
  batch_events (pano_events2 o g) listdir.

End Reprojector.

(** ** PoseDeriver (ground-truth mode) *)

(** A numpy array of floats, by rows. *)
Abbreviation Matrix := (list (list R)).

Module Linalg.
Local Open Scope R_scope.

Definition dot (u v : list R) : R := foldr Rplus 0 (zip_with Rmult u v).

Definition column (j : nat) (B : Matrix) : list R :=
  map (λ row, nth j row 0) B.

Definition ncols (B : Matrix) : nat :=
  match B with
  | [] => 0%nat
  | row :: _ => length row
  end.

(** [A @ B]; the shapes agree wherever the program multiplies. *)
Definition matmul (A B : Matrix) : Matrix :=
  map (λ row, map (λ j, dot row (column j B)) (seq 0 (ncols B))) A.

Definition identity3 : Matrix := [[1; 0; 0]; [0; 1; 0]; [0; 0; 1]].

Definition det3 (M : Matrix) : R :=
  match M with
  | [[a; b; c]; [d; e; f]; [g; h; i]] =>
      a * (e * i - f * h) - b * (d * i - f * g) + c * (d * h - e * g)
  | _ => 0
  end.

(** [numpy.linalg.inv] on a 3x3 array: the inverse matrix, [LinAlgError]
    when the array is singular. *)
Definition inv (M : Matrix) : Result Matrix :=
  match M with
  | [[a; b; c]; [d; e; f]; [g; h; i]] =>
      let det := det3 M in
      if Req_dec_T det 0 then Raise LinAlgError
      else Ok [[(e * i - f * h) / det; (c * h - b * i) / det;
                (b * f - c * e) / det];
               [(f * g - d * i) / det; (a * i - c * g) / det;
                (c * d - a * f) / det];
               [(d * h - e * g) / det; (b * g - a * h) / det;
                (a * e - b * d) / det]]
  | _ => Raise LinAlgError
  end.

Definition rot_x (a : R) : Matrix :=
  [[1; 0; 0]; [0; cos a; - sin a]; [0; sin a; cos a]].
Definition rot_y (b : R) : Matrix :=
  [[cos b; 0; sin b]; [0; 1; 0]; [- sin b; 0; cos b]].
Definition rot_z (c : R) : Matrix :=
  [[cos c; - sin c; 0]; [sin c; cos c; 0]; [0; 0; 1]].

(** [Rotation.from_euler('XYZ', [a, b, c], degrees=False).as_matrix()]:
    upper-case axes are intrinsic rotations, composed as X then Y then Z
    about the moving frame. *)
Definition from_euler_XYZ (a b c : R) : Matrix :=
  matmul (matmul (rot_x a) (rot_y b)) (rot_z c).

(** [P[:3, :3]] *)
Definition block3 (P : Matrix) : Matrix := map (take 3) (take 3 P).

(** [P[:3, :3] = M] on a copy of [P], for a 3x3 [M]. *)
Definition set_block3 (P M : Matrix) : Matrix :=
  zip_with (λ prow mrow, mrow ++ drop 3 prow) (take 3 P) M ++ drop 3 P.

(** The shape of a pose: four rows of four entries. *)
Definition is_4x4 (P : Matrix) : Prop :=
  length P = 4%nat ∧ Forall (λ row, length row = 4%nat) P.

End Linalg.

Import Linalg.

(** Lines 586-587 and 592-595. *)
Definition perspective_camera_pose (current_pano_camera_pose : Matrix)
    (d : Q * Q) : Result Matrix :=
  let v_rad := Q2R (pitch (rots_of d)) in
  let u_rad := Q2R (yaw (rots_of d)) in
  let current_pano_camera_rotation := block3 current_pano_camera_pose in
  perspective_camera_rotation ←
    inv (from_euler_XYZ v_rad (- u_rad) 0)%R ;
  let perspective_camera_rotation :=
    matmul current_pano_camera_rotation perspective_camera_rotation in
  Ok (set_block3 current_pano_camera_pose perspective_camera_rotation).

(** One entry of the manifest's [frames]; absent keys are [None]. *)
Record Frame : Type := mkFrame {
  file_path : string;
  transform_matrix : Matrix;
  exposure : option Q;
  mask_path : option string
}.

Record OptionsGT : Type := mkOptionsGT {
  gt_image_dir : string;
  gt_planar_image_size : Z * Z;
  gt_samples_per_im : Z;
  gt_mask_dir : option string;
  gt_crop_factor : CropFactor;
  gt_clip_output : bool;
  use_mask : bool;
  use_exposure : bool
}.

(** What the loops of the ground-truth function carry along: whether the
    local [mask] is bound yet, the frames appended and the events so far. *)
Record GTState : Type := mkGTState {
  mask_bound : bool;
  frames : list Frame;
  events : list Event
}.

Definition gt_output_dir (o : OptionsGT) : string :=
  path_join (gt_image_dir o) "planar_projections".
Definition gt_output_mask_dir (o : OptionsGT) : string :=
  path_join (path_join (gt_image_dir o) "mask") "planar_projections".

Definition gt_equi2pers (o : OptionsGT) (fov : Q) : Equi2Pers :=
  mkEqui2Pers (Some (snd (gt_planar_image_size o)))
    (Some (fst (gt_planar_image_size o))) fov "bilinear".

(** Lines 607-611. *)
Definition exposure_of (i : string) : Q :=
  if String.eqb (slice_to 3 i) "rhs" then 9 # 1000 else 1.

(** Lines 586-636: one pass of the direction loop. *)
Definition gt_direction (o : OptionsGT) (fov : Q) (i : string)
    (current_pano_camera_pose : Matrix) (count : nat) (d : Q * Q)
    (st : GTState) : Result GTState :=
  let rots := rots_of d in
  let equi2pers := gt_equi2pers o fov in
  let ev_color := [Warp equi2pers Color rots (Some (gt_clip_output o))] in
  ev_mask0 ←
    (if gt_mask_dir o is Some _ then
       if mask_bound st then Ok [Warp equi2pers Mask rots None]
       else Raise UnboundLocalError
     else Ok []) ;
  pose ← perspective_camera_pose current_pano_camera_pose d ;
  let file_name := before_dot i in   (* names the mask raster read below *)
  let ext := if is_exr i then "exr" else "png" in
  let path := out_path (gt_output_dir o) i count ext in
  let frame :=
    if is_exr i then
      mkFrame path pose
        (if use_exposure o then Some (exposure_of i) else None) None
    else mkFrame path pose None None in
  let ev_write := [ImWrite path Color] in
  if use_mask o then
    let mpath := out_path (gt_output_mask_dir o) i count "png" in
    Ok (mkGTState true
          (frames st
           ++ [mkFrame (file_path frame) (transform_matrix frame)
                 (exposure frame) (Some mpath)])
          (events st ++ ev_color ++ ev_mask0 ++ ev_write
           ++ [Warp equi2pers Mask rots None; ImWrite mpath Mask]))
  else
    Ok (mkGTState (mask_bound st) (frames st ++ [frame])
          (events st ++ ev_color ++ ev_mask0 ++ ev_write)).

(** [for count, d in enumerate(dirs)] threading the state. *)
Fixpoint gt_directions (body : nat → Q * Q → GTState → Result GTState)
    (count : nat) (dirs : list (Q * Q)) (st : GTState) : Result GTState :=
  match dirs with
  | [] => Ok st
  | d :: dirs' =>
      st' ← body count d st ;
      gt_directions body (S count) dirs' st'
  end.

(** Lines 573-636: everything done for the file [i]; the pose is looked up
    under the key [i[:-4]]. *)
Definition gt_pano (o : OptionsGT) (g : SampleGrid)
    (camera_to_worlds_panos : gmap string Matrix) (i : string)
    (st : GTState) : Result GTState :=
  if endswith_any (lower i) image_exts then
    match camera_to_worlds_panos !! drop_last 4 i with
    | Some current_pano_camera_pose =>
        gt_directions (gt_direction o (grid_fov g) i current_pano_camera_pose)
          0 (yaw_pitch_pairs g) st
    | None => Raise KeyError
    end
  else Ok st.

Fixpoint gt_batch (step : string → GTState → Result GTState)
    (files_list : list string) (st : GTState) : Result GTState :=
  match files_list with
  | [] => Ok st
  | i :: files' =>
      st' ← step i st ;
      gt_batch step files' st'
  end.

(** The manifest written to [transforms.json]. *)
Record Manifest : Type := mkManifest {
  fl_x : R;
  fl_y : R;
  cx : R;
  cy : R;
  w : Z;
  h : Z;
  manifest_frames : list Frame
}.

(** Lines 641-642, with [math.radians] and [math.tan] over the reals. *)
Definition fov2foc_len (fov : Q) (sensor_width : Z) : R :=
  (IZR sensor_width / (2 * tan (Q2R (fov / 2) * PI / 180)))%R.

(** [files_list] is the sorted list of the regular files of the image
    directory. *)
Definition generate_planar_projections_from_equirectangular_GT
    (o : OptionsGT) (camera_to_worlds_panos : gmap string Matrix)
    (files_list : list string) : Result (Manifest * list Event) :=
  _ ← check_crop_factor (gt_crop_factor o) ;
  g ← sample_grid (gt_samples_per_im o) (gt_crop_factor o) ;
  st ← gt_batch (gt_pano o g camera_to_worlds_panos) files_list
         (mkGTState false [] []) ;
  let W := fst (gt_planar_image_size o) in
  let H := snd (gt_planar_image_size o) in
  Ok (mkManifest (fov2foc_len (grid_fov g) W) (fov2foc_len (grid_fov g) H)
        (IZR W / 2) (IZR H / 2) W H (frames st),
      events st).

(** ** Equality of numbers up to representation

    [Q] has several fractions for one number; computed bounds are compared
    with the expected ones through [≡], which is [Qeq] entry by entry. *)

#[export] Instance Q_equiv : Equiv Q := Qeq.

Inductive Result_equiv `{Equiv A} : Equiv (Result A) :=
  | Ok_equiv a b : a ≡ b → Ok a ≡ Ok b
  | Raise_equiv e : Raise e ≡ Raise e.
#[export] Existing Instance Result_equiv.

(** ** Vocabulary of the properties *)

(** Unfold one crop pass, leaving comparisons and arithmetic as written. *)
Ltac crop_step :=
  cbn -[num_gt num_lt Qplus Qminus Qdiv Qmult Qopp].

(** Split on every comparison of the goal; the branches an ascending list
    cannot take are closed by linear arithmetic. *)
Ltac crop_cases cmp cmp_true cmp_false :=
  repeat match goal with
         | |- context [cmp ?x ?y] => destruct (cmp x y) eqn:?
         end;
  try reflexivity; exfalso;
  rewrite ?cmp_true, ?cmp_false in *; lra.

(** Evaluate, then compare number by number. *)
Ltac same_numbers := vm_compute; repeat constructor.

(** No crop on any side. *)
Definition zero_crop : CropFactor := mkCrop 0 0 0 0.

(** The spec's reading of the yaw interval: the left fraction moves the
    left bound, the right fraction the right bound. *)
Definition spec_horizontal_bounds (crop_factor : CropFactor) : Q * Q :=
  let cropLeft := crop2 crop_factor in
  let cropRight := crop3 crop_factor in
  (if num_gt cropLeft 0 then -180 + 360 * cropLeft else -180,
   if num_gt cropRight 0 then 180 - 360 * cropRight else 180).

(** The rotation, field of view and interpolation of a warp call are those
    of direction [d] at field of view [fov]; writes are not concerned. *)
Definition aligned (fov : Q) (d : Q * Q) (e : Event) : Prop :=
  match e with
  | Warp proj _ rots _ =>
      rots = mkRots 0 (torch_pi * snd d / 180) (torch_pi * fst d / 180)
      ∧ fov_x proj = fov ∧ mode proj = "bilinear"
  | ImWrite _ _ => True
  end.

(** The channels warped, in call order. *)
Definition warped (es : list Event) : list Channel :=
  omap (λ e, match e with Warp _ ch _ _ => Some ch | ImWrite _ _ => None end)
    es.

(** Unfold the matrix operations on lists of known shape. *)
Ltac matrix_eval :=
  unfold from_euler_XYZ, rot_x, rot_y, rot_z, identity3, matmul, column,
    ncols, dot, block3, set_block3;
  cbn [map seq nth length zip_with foldr det3 take drop app].

(** A pose: a quarter turn about the vertical axis, placed at (1, 2, 3). *)
Definition sample_pose : Matrix :=
  [[0; -1; 0; 1]; [1; 0; 0; 2]; [0; 0; 1; 3]; [0; 0; 0; 1]]%R.

(** The file name without its extension: the text before the last dot. *)
Fixpoint has_dot (s : string) : bool :=
  match s with
  | EmptyString => false
  | String c s' => Ascii.eqb c "." || has_dot s'
  end.
Fixpoint stem (s : string) : string :=
  match s with
  | EmptyString => EmptyString
  | String c s' =>
      if has_dot s' then String c (stem s')
      else if Ascii.eqb c "." then EmptyString
      else String c (stem s')
  end.

(** The spec's output name [<source-stem>_<index>.<ext>] in directory [d]. *)
Definition spec_out_path (d i : string) (count : nat) (ext : string)
    : string :=
  d +:+ "/" +:+ stem i +:+ "_" +:+ str_of_nat count +:+ "." +:+ ext.

(** Runs used as concrete inputs: colour only; ground truth with exposure
    output; the directions of preset 8 without crop. *)
Definition jpeg_options : Options :=
  mkOptions "data" (800, 800)%Z 8 None None zero_crop false (None, None).

(** The exposure entry the code gives the frames of file [i]. *)
Definition frame_exposure (o : OptionsGT) (i : string) : option Q :=
  if is_exr i then
    if use_exposure o then
      Some (if String.eqb (slice_to 3 i) "rhs" then 0.009 else 1)
    else None
  else None.

Definition exposure_options : OptionsGT :=
  mkOptionsGT "data" (800, 800)%Z 8 None zero_crop false false true.

Definition grid8 : SampleGrid :=
  mkGrid 120 [(-180, 0); (-90, 0); (0, 0); (90, 0);
              (-180, 45); (0, 45); (-180, -45); (0, -45)].

(** ** Vocabulary of the further properties *)

#[export] Instance Channel_eq_dec : EqDecision Channel.
Proof. solve_decision. Defined.

(** The paths written for channel [ch], in call order. *)
Definition writes (ch : Channel) (es : list Event) : list string :=
  omap (λ e, match e with
             | ImWrite path c => if decide (c = ch) then Some path else None
             | Warp _ _ _ _ => None
             end) es.

(** The directory entries a generator processes. *)
Definition accepted (exts : list string) (i : string) : bool :=
  endswith_any (lower i) exts.

(** [M.T] *)
Definition transpose (M : Matrix) : Matrix :=
  map (λ j, column j M) (seq 0 (ncols M)).

(** The shape of a rotation block: three rows of three entries. *)
Definition is_3x3 (M : Matrix) : Prop :=
  length M = 3%nat ∧ Forall (λ row, length row = 3%nat) M.

(** A fraction that is a whole number of eighths between 0 and 1. *)
Definition eighths (c : Q) : Prop := ∃ k : Z, (0 <= k <= 8)%Z ∧ c == k # 8.

(** Replace a 3x3 matrix by its nine entries; [rows] is the lemma that
    lists them. *)
Ltac explicit3 rows M :=
  let H := fresh in
  match goal with
  | Hs : is_3x3 M |- _ =>
      destruct (rows M (proj1 Hs) (proj2 Hs))
        as (? & ? & ? & ? & ? & ? & ? & ? & ? & H); subst M; clear Hs
  end.

(** Equality of two matrices of known shape, entry by entry. *)
Ltac matrix3_eq :=
  unfold transpose; matrix_eval;
  repeat match goal with
         | |- _ :: _ = _ :: _ => apply (f_equal2 cons)
         | |- @eq (list _) [] [] => reflexivity
         | |- @eq R _ _ => ring
         end.

(** ** compute_resolution_from_equirect *)

(** The exceptions this function can end in. *)
Inductive ResolutionExn : Type :=
  | ValueError (msg : string)
  | ZeroDivisionError
  | IndexError.

(** [int(np.sqrt(x))] for [x >= 0], in exact arithmetic: the integer part
    of the square root. *)
Definition int_sqrt (x : Q) : Z := Z.sqrt (Qfloor x).

Section Resolution.

(** [np.array(cv2.imread(path)).shape[:2]], as (rows, columns); [None] when
    the file cannot be decoded, in which case the shape is empty. *)
Variable shape : string → option (Z * Z).

(** Lines 671-676; [listdir] is [os.listdir(image_dir)]. *)
Fixpoint compute_resolution_from_equirect (image_dir : string)
    (listdir : list string) (num_images : Z)
    : ResolutionExn + (Z * Z) :=
  match listdir with
  | [] => inl (ValueError "No images found in the directory.")
  | i :: rest =>
      if endswith_any (lower i) image_exts then
        match shape (path_join image_dir i) with
        | None => inl IndexError
        | Some (rows, cols) =>
            if (num_images =? 0)%Z then inl ZeroDivisionError
            else
              let res_squared :=
                inject_Z (rows * cols) / inject_Z num_images in
              if num_lt res_squared 0
              then inl (ValueError "cannot convert float NaN to integer")
              else inr (int_sqrt res_squared, int_sqrt res_squared)
        end
      else compute_resolution_from_equirect image_dir rest num_images
  end.

End Resolution.

(** ** ImagesToNerfstudioDataset.main

    The control flow of [main] in [images_to_nerfstudio_dataset.py].  The
    collaborators it calls (image copying, COLMAP, depth export, the
    transforms writer, the file system) are answers of the [World]: each
    either fails with an exception of its own or succeeds. *)

Section Main.

(** Exceptions of the collaborators. *)
Variable ExtExn : Type.

Inductive MainExn : Type :=
  | RuntimeError (msg : string)
  | EvalDataError (msg : string)        (* the ValueError of line 53 *)
  | UnboundLocal (name : string)        (* UnboundLocalError *)
  | External (e : ExtExn).

#[local] Instance Main_bind : MBind (sum MainExn) := λ A B k m,
  match m with
  | inr a => k a
  | inl e => inl e
  end.

(** A collaborator's answer, as seen by [main]. *)
Definition call {A} (answer : ExtExn + A) : MainExn + A :=
  match answer with
  | inr a => inr a
  | inl e => inl (External e)
  end.

(** The fields of [self] that [main] branches on. *)
Record Self : Type := mkSelf {
  self_output_dir : string;
  colmap_model_path_is_default : bool;
  colmap_model_path : string;
  skip_colmap : bool;
  camera_type : string;
  eval_data : option string;
  self_mask_dir : option string;
  self_hdr_dir : option string;
  skip_image_processing : bool
}.

Record World : Type := mkWorld {
  colmap_model_exists : bool;
  resolution_of_data : ExtExn + (Z * Z);
  resolution_of_hdr : ExtExn + (Z * Z);
  projections : ExtExn + ();
  copy_images : ExtExn + nat;
  copy_eval_images : ExtExn + ();
  copy_masks : ExtExn + ();
  copy_hdrs : ExtExn + ();
  list_images : ExtExn + nat;
  run_colmap : ExtExn + ();
  export_depth : ExtExn + ();
  cameras_bin_exists : bool;
  save_transforms : ExtExn + ()
}.

(** Reading a local that is bound only in the equirectangular branch:
    [None] is "not bound". *)
Definition read_local {A} (name : string) (v : option A) : MainExn + A :=
  match v with
  | Some a => inr a
  | None => inl (UnboundLocal name)
  end.

(** Lines 37-158 of [images_to_nerfstudio_dataset.py].  The frame count
    handed to the transforms writer is the answer of the copy step or of
    the listing; it decides nothing else. *)
Definition main (self : Self) (world : World) : MainExn + () :=
  require_cameras_exist ←
    (if negb (colmap_model_path_is_default self) then
       if negb (skip_colmap self) then
         inl (RuntimeError
                "The --colmap-model-path can only be used when --skip-colmap is not set.")
       else if negb (colmap_model_exists world) then
         inl (RuntimeError
                ("The colmap-model-path "
                 +:+ path_join (self_output_dir self) (colmap_model_path self)
                 +:+ " does not exist."))
       else inr true
     else inr false) ;
  locals ←
    (if String.eqb (camera_type self) "equirectangular" then
       _ ← (if eval_data self is Some _
            then inl (EvalDataError
                        "Cannot use eval_data with camera_type equirectangular.")
            else inr ()) ;
       _ ← call (resolution_of_data world) ;
       _ ← (if self_hdr_dir self is Some _
            then call (resolution_of_hdr world) ≫= λ _, inr ()
            else inr ()) ;
       _ ← call (projections world) ;
       inr (Some (self_mask_dir self), Some (self_hdr_dir self))
     else inr (None, None)) ;
  let '(perspective_masks, perspective_hdrs) := locals in
  num_frames ←
    (if negb (skip_image_processing self) then
       n ← call (copy_images world) ;
       _ ← (if eval_data self is Some _ then call (copy_eval_images world)
            else inr ()) ;
       masks ← read_local "perspective_masks" perspective_masks ;
       _ ← (if masks is Some _ then call (copy_masks world) else inr ()) ;
       hdrs ← read_local "perspective_hdrs" perspective_hdrs ;
       _ ← (if hdrs is Some _ then call (copy_hdrs world) else inr ()) ;
       inr n
     else
       n ← call (list_images world) ;
       if (n =? 0)%nat
       then inl (RuntimeError "No usable images in the data folder.")
       else inr n) ;
  require_cameras_exist ←
    (if negb (skip_colmap self) then
       _ ← read_local "perspective_masks" perspective_masks ;
       _ ← call (run_colmap world) ;
       inr true
     else inr require_cameras_exist) ;
  _ ← call (export_depth world) ;
  _ ← (if require_cameras_exist && negb (cameras_bin_exists world)
       then inl (RuntimeError
                   ("Could not find existing COLMAP results ("
                    +:+ path_join (colmap_model_path self) "cameras.bin"
                    +:+ ")."))
       else inr ()) ;
  _ ← read_local "perspective_masks" perspective_masks ;
  _ ← read_local "perspective_hdrs" perspective_hdrs ;
  call (save_transforms world).

(** *** LanternImagesToNerfstudioDataset.main *)

Record LanternWorld : Type := mkLanternWorld {
  l_colmap_model_exists : bool;
  l_resolution_of_data : ExtExn + (Z * Z);
  l_projections : ExtExn + ();
  l_copy_images : ExtExn + nat;
  l_copy_eval_images : ExtExn + ();
  l_mkdir_masks1 : ExtExn + ();
  l_copy_masks1 : ExtExn + ();
  l_mkdir_masks2 : ExtExn + ();
  l_copy_masks2 : ExtExn + ();
  l_mkdir_exposure1 : ExtExn + ();
  l_copy_exposure1 : ExtExn + ();
  l_mkdir_exposure2 : ExtExn + ();
  l_copy_exposure2 : ExtExn + ();
  l_list_images : ExtExn + nat;
  l_run_colmap : ExtExn + ();
  l_export_depth : ExtExn + ();
  l_cameras_bin_exists : bool;
  l_save_transforms_multiple_exposures : ExtExn + ()
}.

(** Lines 55-181 of [lantern_images_to_nerfstudio_dataset.py]; [bound] says
    whether the four locals returned by the two-exposure generator are
    bound. *)
Definition lantern_main (self : Self) (world : LanternWorld)
    : MainExn + () :=
  require_cameras_exist ←
    (if negb (colmap_model_path_is_default self) then
       if negb (skip_colmap self) then
         inl (RuntimeError
                "The --colmap-model-path can only be used when --skip-colmap is not set.")
       else if negb (l_colmap_model_exists world) then
         inl (RuntimeError
                ("The colmap-model-path "
                 +:+ path_join (self_output_dir self) (colmap_model_path self)
                 +:+ " does not exist."))
       else inr true
     else inr false) ;
  bound ←
    (if String.eqb (camera_type self) "equirectangular" then
       _ ← (if eval_data self is Some _
            then inl (EvalDataError
                        "Cannot use eval_data with camera_type equirectangular.")
            else inr ()) ;
       _ ← call (l_resolution_of_data world) ;
       _ ← call (l_projections world) ;
       inr (Some ())
     else inr None) ;
  num_frames ←
    (if negb (skip_image_processing self) then
       n ← call (l_copy_images world) ;
       _ ← (if eval_data self is Some _ then call (l_copy_eval_images world)
            else inr ()) ;
       _ ← call (l_mkdir_masks1 world) ;
       _ ← read_local "perspective_mask1" bound ;
       _ ← call (l_copy_masks1 world) ;
       _ ← call (l_mkdir_masks2 world) ;
       _ ← read_local "perspective_mask2" bound ;
       _ ← call (l_copy_masks2 world) ;
       _ ← call (l_mkdir_exposure1 world) ;
       _ ← read_local "perspective_e1" bound ;
       _ ← call (l_copy_exposure1 world) ;
       _ ← call (l_mkdir_exposure2 world) ;
       _ ← read_local "perspective_e2" bound ;
       _ ← call (l_copy_exposure2 world) ;
       inr n
     else
       n ← call (l_list_images world) ;
       if (n =? 0)%nat
       then inl (RuntimeError "No usable images in the data folder.")
       else inr n) ;
  require_cameras_exist ←
    (if negb (skip_colmap self) then
       _ ← call (l_run_colmap world) ;
       inr true
     else inr require_cameras_exist) ;
  _ ← call (l_export_depth world) ;
  _ ← (if require_cameras_exist && negb (l_cameras_bin_exists world)
       then inl (RuntimeError
                   ("Could not find existing COLMAP results ("
                    +:+ path_join (colmap_model_path self) "cameras.bin"
                    +:+ ")."))
       else inr ()) ;
  call (l_save_transforms_multiple_exposures world).

End Main.

(** ** Concrete inputs of the further properties *)

(** A run with masks and HDR rasters. *)
Definition full_options : Options :=
  mkOptions "data" (800, 800)%Z 8 (Some "masks") (Some "hdr") zero_crop true
    (Some 400, Some 400)%Z.

(** A two-exposure run. *)
Definition lantern_options : Options2 :=
  mkOptions2 "data" (800, 800)%Z 8 "m1" "m2" "e1" "e2" zero_crop.

(** A ground-truth run that passes [mask_dir]. *)
Definition gt_masked_options : OptionsGT :=
  mkOptionsGT "data" (800, 800)%Z 8 (Some "masks") zero_crop false false
    false.

(** A two-direction grid. *)
Definition small_grid : SampleGrid := mkGrid 120 [(0, 0); (-180, 45)].

(** A perspective data set handed to [main], and collaborators that all
    succeed. *)
Definition perspective_self : Self :=
  mkSelf "out" true "colmap/sparse/0" false "perspective" None None None
    false.

Definition quiet_world : World Empty_set :=
  mkWorld Empty_set true (inr (800, 800)%Z) (inr (800, 800)%Z) (inr ())
    (inr 10%nat) (inr ()) (inr ()) (inr ()) (inr 10%nat) (inr ()) (inr ())
    true (inr ()).

Definition quiet_lantern_world : LanternWorld Empty_set :=
  mkLanternWorld Empty_set true (inr (800, 800)%Z) (inr ()) (inr 10%nat)
    (inr ()) (inr ()) (inr ()) (inr ()) (inr ()) (inr ()) (inr ()) (inr ())
    (inr ()) (inr 10%nat) (inr ()) (inr ()) true (inr ()).

(** * Properties *)

(** ** Comparisons *)

Lemma num_lt_true (x y : Q) : num_lt x y = true ↔ x < y.
Proof.
  unfold num_lt. rewrite Qlt_alt.
  destruct (x ?= y); split; congruence.
Qed.

Lemma num_lt_false (x y : Q) : num_lt x y = false ↔ y <= x.
Proof.
  rewrite <- not_true_iff_false, num_lt_true.
  split; [apply Qnot_lt_le | apply Qle_not_lt].
Qed.

Lemma num_gt_true (x y : Q) : num_gt x y = true ↔ y < x.
Proof. apply num_lt_true. Qed.

Lemma num_gt_false (x y : Q) : num_gt x y = false ↔ x <= y.
Proof. apply num_lt_false. Qed.

(** ** CropBoundSolver *)

(** The bottom pass on three ascending numeric bounds, as the decision
    tree of its scan from index 2 down to index 0. *)
Lemma crop_bottom_cases (b0 b1 b2 F f : Q) :
  b0 <= b1 → b1 <= b2 →
  let start := 90 - 180 * f - F / 2 in
  let lim := start + F / 2 in
  _crop_bottom [Some b0; Some b1; Some b2] F f
  = Ok (if num_gt b2 lim then
          if num_gt b1 lim then
            if num_gt b0 lim then [None; None; None]
            else if num_gt b0 start then [Some start; None; None]
            else [Some b0; None; None]
          else if num_gt b1 start
               then [Some (b0 - (b1 - start) / 2 ^ 1); Some start; None]
          else [Some b0; Some b1; None]
        else if num_gt b2 start
             then [Some (b0 - (b2 - start) / 2 ^ 2);
                   Some (b1 - (b2 - start) / 2 ^ 1); Some start]
        else [Some b0; Some b1; Some b2]).
Proof.
  intros H01 H12 start lim.
  unfold _crop_bottom, new_bottom_start. fold start.
  crop_step. fold lim. clearbody lim start.
  crop_cases num_gt num_gt_true num_gt_false.
Qed.

(** The top pass on three ascending numeric bounds, as the decision tree of
    its scan from index 0 up to index 2. *)
Lemma crop_top_cases (b0 b1 b2 F f : Q) :
  b0 <= b1 → b1 <= b2 →
  let start := -90 + 180 * f + F / 2 in
  let lim := start - F / 2 in
  _crop_top [Some b0; Some b1; Some b2] F f
  = Ok (if num_lt b0 lim then
          if num_lt b1 lim then
            if num_lt b2 lim then [None; None; None]
            else if num_lt b2 start then [None; None; Some start]
            else [None; None; Some b2]
          else if num_lt b1 start
               then [None; Some start; Some (b2 + (start - b1) / 2 ^ 1)]
          else [None; Some b1; Some b2]
        else if num_lt b0 start
             then [Some start; Some (b1 + (start - b0) / 2 ^ 1);
                   Some (b2 + (start - b0) / 2 ^ 2)]
        else [Some b0; Some b1; Some b2]).
Proof.
  intros H01 H12 start lim.
  unfold _crop_top, new_top_start. fold start.
  crop_step. fold lim. clearbody lim start.
  crop_cases num_lt num_lt_true num_lt_false.
Qed.

(** With no top crop and a positive bottom fraction the vertical solver is
    the bottom pass alone, and symmetrically. *)
Lemma vertical_bottom_only (bound_arr : RingBounds) (F f cl cr : Q) :
  0 < f →
  _crop_bound_arr_vertical bound_arr F (mkCrop 0 f cl cr)
  = _crop_bottom bound_arr F f.
Proof.
  intros Hf. unfold _crop_bound_arr_vertical. cbn [crop0 crop1].
  apply num_gt_true in Hf. rewrite Hf. cbn.
  destruct (_crop_bottom bound_arr F f); reflexivity.
Qed.


(** C1: on three ascending bounds, with a positive bottom fraction [f],
    the bottom pass (which is then what the vertical solver runs) uses
    [start = 90 - 180 f - F/2] and scans from index 2 down: an entry above
    [start + F/2] becomes [None] and the scan goes on; the first remaining
    entry above [start] is set to [start], [diff = entry - start] is taken
    off every lower entry as [diff / 2^gap], and the scan ends.  Bottom crop
    0.2 at F = 120 turns (-45, 0, 45) into (-57.75, -25.5, -6). *)
Theorem crop_bottom_pass (b0 b1 b2 F f cl cr : Q) :
  0 < f → b0 <= b1 → b1 <= b2 →
  let start := 90 - 180 * f - F / 2 in
  let lim := start + F / 2 in
  _crop_bound_arr_vertical [Some b0; Some b1; Some b2] F (mkCrop 0 f cl cr)
  = _crop_bottom [Some b0; Some b1; Some b2] F f
  ∧ _crop_bottom [Some b0; Some b1; Some b2] F f
    = Ok (if num_gt b2 lim then
            if num_gt b1 lim then
              if num_gt b0 lim then [None; None; None]
              else if num_gt b0 start then [Some start; None; None]
              else [Some b0; None; None]
            else if num_gt b1 start
                 then [Some (b0 - (b1 - start) / 2 ^ 1); Some start; None]
            else [Some b0; Some b1; None]
          else if num_gt b2 start
               then [Some (b0 - (b2 - start) / 2 ^ 2);
                     Some (b1 - (b2 - start) / 2 ^ 1); Some start]
          else [Some b0; Some b1; Some b2])
  ∧ _crop_bottom [Some (-45); Some 0; Some 45] 120 0.2
    ≡ Ok [Some (-57.75); Some (-25.5); Some (-6)].
Proof.
  intros Hf H01 H12 start lim. split; [|split].
  - apply vertical_bottom_only, Hf.
  - apply crop_bottom_cases; assumption.
  - same_numbers.
Qed.

Lemma crop_bottom_pass_witness :
  0 < 0.2 ∧ -45 <= 0 ∧ 0 <= 45
  ∧ _crop_bound_arr_vertical [Some (-45); Some 0; Some 45] 120
    (mkCrop 0 0.2 0 0)
  = _crop_bottom [Some (-45); Some 0; Some 45] 120 0.2
  ∧ _crop_bottom [Some (-45); Some 0; Some 45] 120 0.2
    ≡ Ok [Some (-57.75); Some (-25.5); Some (-6)].
Proof.
  assert (H : (0 < 0.2) ∧ (-45 <= 0) ∧ (0 <= 45)) by (repeat split; lra).
  destruct H as (Hf & H01 & H12).
  destruct (crop_bottom_pass (-45) 0 45 120 0.2 0 0 Hf H01 H12)
    as (Hv & _ & Hex).
  repeat split; assumption.
Defined.



(** *** The top pass on a list that holds the sentinel *)

Lemma top_redistribute_sentinel (js : list nat) :
  ∀ (bound_arr : RingBounds) (diff : Q) (i k : nat),
    k ∈ js → bound_arr !! k = Some None →
    top_redistribute bound_arr diff i js = Raise TypeError.
Proof.
  induction js as [|j js IH]; intros arr diff i k Hk Hnone.
  - inversion Hk.
  - cbn [top_redistribute].
    destruct (decide (k = j)) as [->|Hne].
    + rewrite Hnone. reflexivity.
    + destruct (arr !! j) as [[a|]|] eqn:Hj; try reflexivity.
      cbn. apply (IH _ _ _ k).
      * apply elem_of_cons in Hk. destruct Hk; [contradiction|assumption].
      * rewrite list_lookup_insert_ne; [assumption|congruence].
Qed.

Lemma top_scan_sentinel (start fov : Q) (m : nat) :
  ∀ (i : nat) (bound_arr : RingBounds) (k : nat),
    (i + m)%nat = length bound_arr → (i ≤ k)%nat →
    bound_arr !! k = Some None →
    top_scan start fov (seq i m) bound_arr = Raise TypeError.
Proof.
  induction m as [|m IH]; intros i arr k Hlen Hik Hnone.
  - apply lookup_lt_Some in Hnone. lia.
  - cbn [seq top_scan].
    destruct (decide (k = i)) as [->|Hne].
    + rewrite Hnone. reflexivity.
    + destruct (arr !! i) as [[a|]|] eqn:Hi; try reflexivity.
      cbn -[num_lt].
      destruct (num_lt a (start - fov / 2)).
      * apply (IH _ _ k); [rewrite length_insert; lia | lia |].
        rewrite list_lookup_insert_ne; [assumption|congruence].
      * destruct (num_lt a start).
        -- apply (top_redistribute_sentinel _ _ _ _ k).
           ++ unfold range_up. apply elem_of_seq.
              apply lookup_lt_Some in Hnone. lia.
           ++ rewrite list_lookup_insert_ne; [assumption|congruence].
        -- apply (IH _ _ k); [lia | lia | assumption].
Qed.

(** The top pass raises on every list that holds a sentinel. *)
Lemma crop_top_sentinel (bound_arr : RingBounds) (fov crop_factor : Q) :
  None ∈ bound_arr → _crop_top bound_arr fov crop_factor = Raise TypeError.
Proof.
  intros Hin. apply list_elem_of_lookup in Hin as [k Hk].
  unfold _crop_top. apply (top_scan_sentinel _ _ _ _ _ k); [lia | lia | exact Hk].
Qed.

(** C10: when both the bottom and the top fraction are positive and the
    bottom pass, run first, has set an entry to [None], the top pass that
    follows compares or adds to that [None] and the vertical solver ends in
    [TypeError]; it returns bounds only if the bottom pass removed no
    ring. *)
Theorem vertical_crop_after_removal (bound_arr mid : RingBounds)
    (fov : Q) (crop_factor : CropFactor) :
  0 < crop1 crop_factor → 0 < crop0 crop_factor →
  _crop_bottom bound_arr fov (crop1 crop_factor) = Ok mid →
  (None ∈ mid →
   _crop_top mid fov (crop0 crop_factor) = Raise TypeError
   ∧ _crop_bound_arr_vertical bound_arr fov crop_factor = Raise TypeError)
  ∧ (∀ out, _crop_bound_arr_vertical bound_arr fov crop_factor = Ok out →
     None ∉ mid).
Proof.
  intros Hb Ht Hmid.
  assert (Hrun : _crop_bound_arr_vertical bound_arr fov crop_factor
                 = _crop_top mid fov (crop0 crop_factor)).
  { unfold _crop_bound_arr_vertical.
    apply num_gt_true in Hb, Ht. rewrite Hb, Hmid. cbn -[num_gt].
    rewrite Ht. reflexivity. }
  split.
  - intros Hin. rewrite Hrun.
    split; apply crop_top_sentinel, Hin.
  - intros out Hout Hin. rewrite Hrun, crop_top_sentinel in Hout.
    + discriminate.
    + exact Hin.
Qed.

Lemma vertical_crop_after_removal_witness :
  _crop_bottom [Some (-45); Some 0; Some 45] 120 0.3
  = Ok [Some (-2280 # 40); Some (-480 # 20); None]
  ∧ _crop_bound_arr_vertical [Some (-45); Some 0; Some 45] 120
      (mkCrop 0.1 0.3 0 0) = Raise TypeError.
Proof.
  assert (Hb : 0 < crop1 (mkCrop 0.1 0.3 0 0)) by reflexivity.
  assert (Ht : 0 < crop0 (mkCrop 0.1 0.3 0 0)) by reflexivity.
  assert (Hmid : _crop_bottom [Some (-45); Some 0; Some 45] 120
                   (crop1 (mkCrop 0.1 0.3 0 0))
                 = Ok [Some (-2280 # 40); Some (-480 # 20); None])
    by (vm_compute; reflexivity).
  split; [exact Hmid|].
  apply (vertical_crop_after_removal _ _ _ _ Hb Ht Hmid).
  apply list_elem_of_lookup. exists 2%nat. reflexivity.
Defined.

(** ** SampleGridBuilder *)

(** C2: without crop, preset 8 gives exactly 8 directions and preset 14
    exactly 14: the middle ring (pitch 0) first, then the upper ring
    (pitch 45), then the lower ring (pitch -45), each ring stepping its yaw
    from -180 up to, and excluding, 180 (steps 90 and 180 for preset 8,
    60 and 90 for preset 14). *)
Theorem sample_grid_presets :
  sample_grid 8 zero_crop
  = Ok (mkGrid 120
          (map (λ u, (u, 0)) (arange (-180) 180 90)
           ++ map (λ u, (u, 45)) (arange (-180) 180 180)
           ++ map (λ u, (u, -45)) (arange (-180) 180 180)))
  ∧ sample_grid 8 zero_crop
    = Ok (mkGrid 120
            [(-180, 0); (-90, 0); (0, 0); (90, 0);
             (-180, 45); (0, 45);
             (-180, -45); (0, -45)])
  ∧ sample_grid 14 zero_crop
    = Ok (mkGrid 110
            (map (λ u, (u, 0)) (arange (-180) 180 60)
             ++ map (λ u, (u, 45)) (arange (-180) 180 90)
             ++ map (λ u, (u, -45)) (arange (-180) 180 90)))
  ∧ sample_grid 14 zero_crop
    = Ok (mkGrid 110
            [(-180, 0); (-120, 0); (-60, 0); (0, 0); (60, 0); (120, 0);
             (-180, 45); (-90, 45); (0, 45); (90, 45);
             (-180, -45); (-90, -45); (0, -45); (90, -45)])
  ∧ (∀ g, sample_grid 8 zero_crop = Ok g → length (yaw_pitch_pairs g) = 8%nat)
  ∧ (∀ g, sample_grid 14 zero_crop = Ok g
          → length (yaw_pitch_pairs g) = 14%nat).
Proof.
  repeat split; try (vm_compute; reflexivity);
    intros g Hg; vm_compute in Hg; injection Hg as <-; reflexivity.
Qed.

(** C5, as stated, fails: cropping a quarter on the left only, the code
    keeps the lower yaw bound at -180 and lowers the upper one to 90, where
    the claim expects -90 and 180. *)
Lemma horizontal_bounds_not_spec :
  horizontal_bounds (mkCrop 0 0 0.25 0) = (-180, 180 - 360 * 0.25)
  ∧ spec_horizontal_bounds (mkCrop 0 0 0.25 0) = (-180 + 360 * 0.25, 180)
  ∧ ¬ (fst (horizontal_bounds (mkCrop 0 0 0.25 0))
       == fst (spec_horizontal_bounds (mkCrop 0 0 0.25 0)))
  ∧ ¬ (snd (horizontal_bounds (mkCrop 0 0 0.25 0))
       == snd (spec_horizontal_bounds (mkCrop 0 0 0.25 0))).
Proof.
  repeat split; cbn; intros H; discriminate H.
Qed.

(** C5, amended: with the fractions in the order (top, bottom, left,
    right), the lower yaw bound [left_bound] is [-180 + 360 * right] when
    the right fraction is positive and -180 otherwise, and the upper yaw
    bound [right_bound] is [180 - 360 * left] when the left fraction is
    positive and 180 otherwise. *)
Theorem horizontal_bounds_swapped (top bottom left right : Q) :
  let '(left_bound, right_bound) :=
    horizontal_bounds (mkCrop top bottom left right) in
  (0 < right → left_bound = -180 + 360 * right)
  ∧ (right <= 0 → left_bound = -180)
  ∧ (0 < left → right_bound = 180 - 360 * left)
  ∧ (left <= 0 → right_bound = 180).
Proof.
  unfold horizontal_bounds. cbn [crop2 crop3].
  repeat split; intros H.
  - apply num_gt_true in H. rewrite H. reflexivity.
  - apply num_gt_false in H. rewrite H. reflexivity.
  - apply num_gt_true in H. rewrite H. reflexivity.
  - apply num_gt_false in H. rewrite H. reflexivity.
Qed.

Lemma horizontal_bounds_swapped_witness :
  0 < 0.25 ∧ 0 <= 0
  ∧ horizontal_bounds (mkCrop 0 0 0.25 0) = (-180, 180 - 360 * 0.25)
  ∧ horizontal_bounds (mkCrop 0 0 0 0.25) = (-180 + 360 * 0.25, 180).
Proof.
  assert (Hpos : 0 < 0.25) by reflexivity.
  assert (Hzero : 0 <= 0) by apply Qle_refl.
  pose proof (horizontal_bounds_swapped 0 0 0.25 0) as Hl.
  pose proof (horizontal_bounds_swapped 0 0 0 0.25) as Hr.
  destruct (horizontal_bounds (mkCrop 0 0 0.25 0)) as [l1 r1].
  destruct (horizontal_bounds (mkCrop 0 0 0 0.25)) as [l2 r2].
  destruct Hl as (_ & Hl1 & Hl2 & _), Hr as (Hr1 & _ & _ & Hr2).
  rewrite (Hl1 Hzero), (Hl2 Hpos), (Hr1 Hpos), (Hr2 Hzero).
  split; [exact Hpos | split; [exact Hzero | split; reflexivity]].
Defined.

(** ** Unsupported presets *)

Lemma batch_events_nil (pano : string → Result (list Event))
    (files : list string) (evs : list Event) :
  (∀ i ev, pano i = Ok ev → ev = []) →
  batch_events pano files = Ok evs → evs = [].
Proof.
  intros Hpano. revert evs.
  induction files as [|i files IH]; intros evs H; cbn in H.
  - congruence.
  - destruct (pano i) as [ev|] eqn:Hi; [|discriminate].
    destruct (batch_events pano files) as [evs'|]; [|discriminate].
    cbn in H. injection H as <-.
    rewrite (Hpano _ _ Hi), (IH _ eq_refl). reflexivity.
Qed.

(** C7: a preset other than 8 and 14 makes the grid builder return, without
    an exception and whatever the crop, the empty direction list (at the
    default field of view 120); a run of the reprojector that completes has
    then warped and written nothing. *)
Theorem unsupported_preset_empty (n : Z) (crop : CropFactor)
    (isfile : string → bool) (o : Options) (listdir : list string) :
  n ≠ 8%Z → n ≠ 14%Z →
  sample_grid n crop = Ok (mkGrid 120 [])
  ∧ (samples_per_im o = n →
     ∀ evs, generate_planar_projections_from_equirectangular isfile o listdir
            = Ok evs → evs = []).
Proof.
  intros H8 H14.
  assert (Hgrid : ∀ c, sample_grid n c = Ok (mkGrid 120 [])).
  { intros c. unfold sample_grid.
    destruct (horizontal_bounds c) as [l r].
    apply Z.eqb_neq in H8, H14. rewrite H8, H14. reflexivity. }
  split; [apply Hgrid|].
  intros Hn evs. unfold generate_planar_projections_from_equirectangular.
  rewrite Hn, Hgrid.
  destruct (check_crop_factor (crop_factor o)); [|discriminate].
  cbn. apply batch_events_nil.
  intros i ev. unfold pano_events, for_directions.
  cbn [yaw_pitch_pairs imap concat].
  destruct (endswith_any (lower i) image_exts); [|congruence].
  destruct (load_companions isfile o i); cbn; congruence.
Qed.

Lemma unsupported_preset_empty_witness :
  10%Z ≠ 8%Z ∧ 10%Z ≠ 14%Z
  ∧ sample_grid 10 (mkCrop 0.1 0.3 0 0) = Ok (mkGrid 120 []).
Proof.
  assert (H8 : 10%Z ≠ 8%Z) by discriminate.
  assert (H14 : 10%Z ≠ 14%Z) by discriminate.
  split; [exact H8 | split; [exact H14 |]].
  apply (unsupported_preset_empty 10 (mkCrop 0.1 0.3 0 0) (λ _, true)
           (mkOptions "data" (800, 800)%Z 10 None None (mkCrop 0.1 0.3 0 0)
              false (None, None)) ["pano.png"] H8 H14).
Defined.

(** ** Reprojector: one geometry for every channel *)

Lemma Forall2_imap {A B} (P : A → B → Prop) (f : nat → A → B) (l : list A) :
  (∀ k x, l !! k = Some x → P x (f k x)) → Forall2 P l (imap f l).
Proof.
  revert f. induction l as [|x l IH]; intros f H; cbn; constructor.
  - apply (H 0%nat). reflexivity.
  - apply IH. intros k y Hk. apply (H (S k)). exact Hk.
Qed.

Lemma direction_events_aligned (o : Options) (fov : Q) (i : string)
    (count : nat) (d : Q * Q) :
  Forall (aligned fov d) (direction_events o fov i count d)
  ∧ warped (direction_events o fov i count d)
    = [Color] ++ (if mask_dir o is Some _ then [Mask] else [])
      ++ (if hdr_dir o is Some _ then [Hdr] else []).
Proof.
  destruct d as [u v]. unfold direction_events, equi2pers_hdr_of.
  destruct (mask_dir o), (hdr_dir o); cbn;
    (split; [repeat constructor | reflexivity]).
Qed.

Lemma direction_events2_aligned (o : Options2) (fov : Q) (i : string)
    (count : nat) (d : Q * Q) :
  Forall (aligned fov d) (direction_events2 o fov i count d)
  ∧ warped (direction_events2 o fov i count d)
    = [Color; MaskE1; MaskE2; E1; E2].
Proof.
  destruct d as [u v]. unfold direction_events2. cbn.
  split; [repeat constructor | reflexivity].
Qed.

(** C3: whatever panorama [i] is processed, its events split into one
    group per direction of the grid, in order; inside a group every channel
    that is warped (colour, mask and HDR in the single-exposure function;
    colour, both masks and both exposures in the two-exposure function) is
    warped with roll 0, the direction's pitch and yaw in radians, the
    grid's field of view and bilinear interpolation. *)
Theorem channels_share_rotation (isfile : string → bool) (g : SampleGrid)
    (i : string) :
  (∀ (o : Options) (evs : list Event),
     endswith_any (lower i) image_exts = true →
     pano_events isfile o g i = Ok evs →
     ∃ groups : list (list Event),
       evs = concat groups
       ∧ Forall2 (λ d es,
            Forall (aligned (grid_fov g) d) es
            ∧ warped es
              = [Color] ++ (if mask_dir o is Some _ then [Mask] else [])
                ++ (if hdr_dir o is Some _ then [Hdr] else []))
           (yaw_pitch_pairs g) groups)
  ∧ (∀ (o : Options2) (evs : list Event),
       endswith_any (lower i) [".jpg"; ".png"; ".jpeg"] = true →
       pano_events2 isfile o g i = Ok evs →
       ∃ groups : list (list Event),
         evs = concat groups
         ∧ Forall2 (λ d es,
              Forall (aligned (grid_fov g) d) es
              ∧ warped es = [Color; MaskE1; MaskE2; E1; E2])
             (yaw_pitch_pairs g) groups).
Proof.
  split; intros o evs Hext Hev.
  - unfold pano_events in Hev. rewrite Hext in Hev.
    destruct (load_companions isfile o i); [|discriminate].
    cbn in Hev. injection Hev as <-.
    eexists. split; [reflexivity|].
    apply Forall2_imap. intros k d _. apply direction_events_aligned.
  - unfold pano_events2 in Hev. rewrite Hext in Hev.
    destruct (load_companions2 isfile o i); [|discriminate].
    cbn in Hev. injection Hev as <-.
    eexists. split; [reflexivity|].
    apply Forall2_imap. intros k d _. apply direction_events2_aligned.
Qed.

Lemma channels_share_rotation_witness :
  let o := mkOptions "data" (800, 800)%Z 8 (Some "masks") (Some "hdr")
             zero_crop true (Some 400, Some 400)%Z in
  let g := mkGrid 120 [(0, 0); (-180, 45)] in
  ∃ evs groups,
    endswith_any (lower "pano.png") image_exts = true
    ∧ pano_events (λ _, true) o g "pano.png" = Ok evs
    ∧ evs = concat groups
    ∧ Forall2 (λ d es,
         Forall (aligned 120 d) es ∧ warped es = [Color; Mask; Hdr])
        [(0, 0); (-180, 45)] groups.
Proof.
  intros o g.
  set (evs := for_directions (direction_events o 120 "pano.png")
                (yaw_pitch_pairs g)).
  assert (Hext : endswith_any (lower "pano.png") image_exts = true)
    by reflexivity.
  assert (Hev : pano_events (λ _, true) o g "pano.png" = Ok evs)
    by reflexivity.
  destruct (proj1 (channels_share_rotation (λ _, true) g "pano.png")
              o evs Hext Hev) as (groups & Hcat & Hall).
  exists evs, groups. repeat split; assumption.
Defined.

(** ** PoseDeriver *)

Section Pose.
Local Open Scope R_scope.

Lemma is_4x4_rows (P : Matrix) :
  is_4x4 P →
  ∃ a0 a1 a2 a3 b0 b1 b2 b3 c0 c1 c2 c3 d0 d1 d2 d3 : R,
    P = [[a0; a1; a2; a3]; [b0; b1; b2; b3];
         [c0; c1; c2; c3]; [d0; d1; d2; d3]].
Proof.
  intros [Hlen Hrows].
  do 5 (destruct P as [|? P]; try discriminate Hlen).
  repeat match goal with
         | H : Forall _ (_ :: _) |- _ => apply Forall_cons in H as [? H]
         end.
  repeat match goal with
         | H : length ?r = 4%nat |- _ =>
             do 5 (destruct r as [|? r]; try discriminate H); clear H
         end.
  repeat eexists.
Qed.

Lemma det3_from_euler (a b c : R) : det3 (from_euler_XYZ a b c) = 1.
Proof.
  matrix_eval.
  transitivity (((sin a)² + (cos a)²) * ((sin b)² + (cos b)²)
                * ((sin c)² + (cos c)²)).
  - unfold Rsqr. ring.
  - rewrite !sin2_cos2. ring.
Qed.

Lemma from_euler_rows (a b c : R) :
  ∃ e00 e01 e02 e10 e11 e12 e20 e21 e22 : R,
    from_euler_XYZ a b c = [[e00; e01; e02]; [e10; e11; e12]; [e20; e21; e22]].
Proof. matrix_eval. repeat eexists. Qed.

(** On a 3x3 array of non-zero determinant [inv] returns, and what it
    returns is the two-sided inverse. *)
Lemma inv_is_inverse (M : Matrix) (a b c d e f g h i : R) :
  M = [[a; b; c]; [d; e; f]; [g; h; i]] → det3 M ≠ 0 →
  ∃ M', inv M = Ok M'
        ∧ matmul M M' = identity3 ∧ matmul M' M = identity3
        ∧ length M' = 3%nat ∧ Forall (λ row, length row = 3%nat) M'.
Proof.
  intros -> Hdet. unfold inv.
  destruct (Req_dec_T _ 0) as [Hz|_]; [contradiction|].
  eexists. split; [reflexivity|].
  cbn [det3] in *.
  repeat split; try (matrix_eval; repeat f_equal; field; exact Hdet).
  repeat constructor.
Qed.

Lemma rows3 (M : Matrix) :
  length M = 3%nat → Forall (λ row, length row = 3%nat) M →
  ∃ a b c d e f g h i : R, M = [[a; b; c]; [d; e; f]; [g; h; i]].
Proof.
  intros Hlen Hrows.
  do 4 (destruct M as [|? M]; try discriminate Hlen).
  repeat match goal with
         | H : Forall _ (_ :: _) |- _ => apply Forall_cons in H as [? H]
         end.
  repeat match goal with
         | H : length ?r = 3%nat |- _ =>
             do 4 (destruct r as [|? r]; try discriminate H); clear H
         end.
  repeat eexists.
Qed.

Lemma deg2rad_zero : Q2R (deg2rad 0) = 0.
Proof.
  rewrite <- RMicromega.Q2R_0. apply Qreals.Qeq_eqR. reflexivity.
Qed.

(** At yaw 0 and pitch 0 the Euler rotation is the identity. *)
Lemma from_euler_zero : from_euler_XYZ 0 (- 0) 0 = identity3.
Proof.
  matrix_eval. rewrite Ropp_0, cos_0, sin_0.
  repeat f_equal; ring.
Qed.

Lemma inv_identity3 : inv identity3 = Ok identity3.
Proof.
  unfold inv, identity3.
  destruct (Req_dec_T _ 0) as [Hz|Hnz].
  - exfalso. cbn [det3] in Hz. lra.
  - cbn [det3] in *. repeat f_equal; field; exact Hnz.
Qed.

(** The derived pose exists, and only the rotation block of the panorama
    pose has changed in it. *)
Lemma perspective_pose_block (P : Matrix) (u v : Q) :
  is_4x4 P →
  ∃ E_inv pose : Matrix,
    let E := from_euler_XYZ (Q2R (torch_pi * v / 180))
               (- Q2R (torch_pi * u / 180)) 0 in
    inv E = Ok E_inv
    ∧ matmul E E_inv = identity3 ∧ matmul E_inv E = identity3
    ∧ perspective_camera_pose P (u, v) = Ok pose
    ∧ is_4x4 pose
    ∧ block3 pose = matmul (block3 P) E_inv
    ∧ map (drop 3) pose = map (drop 3) P
    ∧ drop 3 pose = drop 3 P.
Proof.
  intros HP.
  destruct (is_4x4_rows P HP)
    as (a0 & a1 & a2 & a3 & b0 & b1 & b2 & b3 & c0 & c1 & c2 & c3
        & d0 & d1 & d2 & d3 & ->).
  set (E := from_euler_XYZ (Q2R (torch_pi * v / 180))
              (- Q2R (torch_pi * u / 180)) 0).
  destruct (from_euler_rows (Q2R (torch_pi * v / 180))
              (- Q2R (torch_pi * u / 180)) 0)
    as (e00 & e01 & e02 & e10 & e11 & e12 & e20 & e21 & e22 & HE).
  fold E in HE.
  assert (Hdet : det3 E ≠ 0)
    by (unfold E; rewrite det3_from_euler; lra).
  destruct (inv_is_inverse E _ _ _ _ _ _ _ _ _ HE Hdet)
    as (E_inv & Hinv & Hr & Hl & Hlen & Hrows).
  destruct (rows3 E_inv Hlen Hrows)
    as (i00 & i01 & i02 & i10 & i11 & i12 & i20 & i21 & i22 & HEi).
  exists E_inv.
  eexists. cbn zeta.
  split; [exact Hinv|]. split; [exact Hr|]. split; [exact Hl|].
  split.
  { unfold perspective_camera_pose, rots_of. cbn [pitch yaw].
    unfold deg2rad. fold E. rewrite Hinv. cbn [mbind Result_bind].
    reflexivity. }
  subst E_inv.
  split; [split; [reflexivity | repeat constructor]|].
  split; [reflexivity|]. split; reflexivity.
Qed.

(** Looking straight ahead leaves the pose as it is. *)
Lemma perspective_pose_ahead (P : Matrix) :
  is_4x4 P → perspective_camera_pose P (0%Q, 0%Q) = Ok P.
Proof.
  intros HP.
  destruct (is_4x4_rows P HP)
    as (a0 & a1 & a2 & a3 & b0 & b1 & b2 & b3 & c0 & c1 & c2 & c3
        & d0 & d1 & d2 & d3 & ->).
  unfold perspective_camera_pose, rots_of. cbn [pitch yaw].
  rewrite deg2rad_zero, from_euler_zero, inv_identity3.
  cbn [mbind Result_bind]. matrix_eval.
  repeat f_equal; ring.
Qed.

(** The Euler rotation of (pitch [a], -yaw [y], 0), entry by entry. *)
Lemma from_euler_entries (a y : R) :
  from_euler_XYZ a (- y) 0
  = [[cos y; 0; - sin y];
     [- sin a * sin y; cos a; - sin a * cos y];
     [cos a * sin y; sin a; cos a * cos y]].
Proof.
  matrix_eval. rewrite cos_neg, sin_neg, cos_0, sin_0.
  repeat match goal with
         | |- _ :: _ = _ :: _ => apply (f_equal2 cons)
         | |- @eq (list _) [] [] => reflexivity
         | |- @eq R _ _ => ring
         end.
Qed.

(** Its inverse, as [inv] computes it: the transposed entries. *)
Lemma inv_from_euler_entries (a y : R) :
  inv (from_euler_XYZ a (- y) 0)
  = Ok [[cos y; - sin a * sin y; cos a * sin y];
        [0; cos a; sin a];
        [- sin y; - sin a * cos y; cos a * cos y]].
Proof.
  rewrite from_euler_entries.
  pose proof (sin2_cos2 a) as Ha. pose proof (sin2_cos2 y) as Hy.
  unfold Rsqr in Ha, Hy. unfold inv. cbn [det3].
  generalize dependent (sin a). generalize dependent (cos a).
  generalize dependent (sin y). generalize dependent (cos y).
  intros cy sy Hy ca sa Ha.
  assert (Hdet : cy * (ca * (ca * cy) - - sa * cy * sa)
                 - 0 * (- sa * sy * (ca * cy) - - sa * cy * (ca * sy))
                 + - sy * (- sa * sy * sa - ca * (ca * sy)) = 1) by nsatz.
  destruct (Req_dec_T _ 0) as [Hz|_]; [exfalso; lra|].
  rewrite Hdet. clear Hdet.
  repeat f_equal; unfold Rdiv; rewrite Rinv_1, Rmult_1_r; nsatz.
Qed.

(** An eighth of a turn, as the program converts it to radians, lies
    strictly between 0 and a quarter turn. *)
Lemma eighth_turn_acute :
  0 < Q2R (torch_pi * 45 / 180) ∧ Q2R (torch_pi * 45 / 180) < PI / 2.
Proof.
  split.
  - rewrite <- RMicromega.Q2R_0. apply Qreals.Qlt_Rlt. reflexivity.
  - apply Rlt_trans with 1; [|exact PI2_1].
    rewrite <- RMicromega.Q2R_1. apply Qreals.Qlt_Rlt. reflexivity.
Qed.

(** C4: from a 4x4 panorama pose [P] and a direction (yaw [u], pitch [v])
    the derived pose is [P] with only its 3x3 rotation block replaced: the
    block becomes [R_pano @ inv(E)], where [E] is the rotation of the
    intrinsic XYZ Euler angles (pitch, -yaw, 0) in radians, whose nine
    entries are the products of sines and cosines listed, and [inv(E)] is
    its two-sided inverse, the transposed entries; the fourth column (the
    translation) and the fourth row are those of [P]; and at yaw 0, pitch 0
    the derived pose, hence its rotation, is [P]'s own. *)
Theorem perspective_pose_derivation (P : Matrix) (u v : Q) :
  is_4x4 P →
  ∃ E_inv pose : Matrix,
    let a := Q2R (torch_pi * v / 180) in
    let y := Q2R (torch_pi * u / 180) in
    let E := from_euler_XYZ a (- y) 0 in
    E = [[cos y; 0; - sin y];
         [- sin a * sin y; cos a; - sin a * cos y];
         [cos a * sin y; sin a; cos a * cos y]]
    ∧ inv E = Ok E_inv
    ∧ E_inv = [[cos y; - sin a * sin y; cos a * sin y];
               [0; cos a; sin a];
               [- sin y; - sin a * cos y; cos a * cos y]]
    ∧ matmul E E_inv = identity3 ∧ matmul E_inv E = identity3
    ∧ perspective_camera_pose P (u, v) = Ok pose
    ∧ is_4x4 pose
    ∧ block3 pose = matmul (block3 P) E_inv
    ∧ map (drop 3) pose = map (drop 3) P
    ∧ drop 3 pose = drop 3 P
    ∧ perspective_camera_pose P (0%Q, 0%Q) = Ok P.
Proof.
  intros HP.
  destruct (perspective_pose_block P u v HP)
    as (E_inv & pose & Hinv & Hr & Hl & Hpose & Hshape & Hblock & Hcol
        & Hrow).
  exists E_inv, pose. cbn zeta in *.
  split; [apply from_euler_entries|].
  split; [exact Hinv|].
  split.
  { rewrite inv_from_euler_entries in Hinv. injection Hinv as <-.
    reflexivity. }
  repeat (split; [assumption|]).
  apply perspective_pose_ahead, HP.
Qed.

Lemma perspective_pose_derivation_witness :
  is_4x4 sample_pose
  ∧ (∃ pose,
       perspective_camera_pose sample_pose (-90, 45)%Q = Ok pose
       ∧ block3 pose
         = [[0; - cos (Q2R (torch_pi * 45 / 180));
             - sin (Q2R (torch_pi * 45 / 180))];
            [cos (Q2R (torch_pi * -90 / 180));
             - sin (Q2R (torch_pi * 45 / 180))
               * sin (Q2R (torch_pi * -90 / 180));
             cos (Q2R (torch_pi * 45 / 180))
             * sin (Q2R (torch_pi * -90 / 180))];
            [- sin (Q2R (torch_pi * -90 / 180));
             - sin (Q2R (torch_pi * 45 / 180))
               * cos (Q2R (torch_pi * -90 / 180));
             cos (Q2R (torch_pi * 45 / 180))
             * cos (Q2R (torch_pi * -90 / 180))]]
       ∧ 0 < sin (Q2R (torch_pi * 45 / 180))
       ∧ 0 < cos (Q2R (torch_pi * 45 / 180))
       ∧ map (drop 3) pose = map (drop 3) sample_pose
       ∧ drop 3 pose = drop 3 sample_pose)
  ∧ perspective_camera_pose sample_pose (0%Q, 0%Q) = Ok sample_pose.
Proof.
  assert (HP : is_4x4 sample_pose)
    by (split; [reflexivity | repeat constructor]).
  split; [exact HP|].
  destruct (perspective_pose_derivation sample_pose (-90) 45 HP)
    as (E_inv & pose & _ & _ & HEi & _ & _ & Hpose & _ & Hblock & Hcol
        & Hrow & Hzero).
  cbn zeta in HEi. destruct eighth_turn_acute as [Hpos Hacute].
  split; [|exact Hzero].
  exists pose. split; [exact Hpose|].
  split.
  { rewrite Hblock, HEi. unfold sample_pose. matrix3_eq. }
  split; [apply sin_gt_0; [exact Hpos | pose proof PI_RGT_0; lra]|].
  split; [apply cos_gt_0; [pose proof PI_RGT_0; lra | exact Hacute]|].
  split; assumption.
Defined.

End Pose.

(** ** Output names *)

Lemma string_length_append (s t : string) :
  String.length (s +:+ t) = (String.length s + String.length t)%nat.
Proof.
  induction s as [|c s IH]; simpl; [reflexivity | f_equal; exact IH].
Qed.

Lemma substring_append_left (s t : string) :
  substring 0 (String.length s) (s +:+ t) = s.
Proof.
  induction s as [|c s IH]; simpl.
  - destruct t; reflexivity.
  - f_equal. exact IH.
Qed.

Lemma drop_last_append (s t : string) :
  drop_last (String.length t) (s +:+ t) = s.
Proof.
  unfold drop_last. rewrite string_length_append.
  replace (String.length s + String.length t - String.length t)%nat
    with (String.length s) by lia.
  apply substring_append_left.
Qed.

(** Behind a four-character extension the name is the one the spec
    gives. *)
Lemma out_path_four (d name suf : string) (count : nat) (ext : string) :
  String.length suf = 4%nat →
  out_path d (name +:+ suf) count ext
  = d +:+ "/" +:+ name +:+ "_" +:+ str_of_nat count +:+ "." +:+ ext.
Proof.
  intros H. unfold out_path. rewrite <- H, drop_last_append. reflexivity.
Qed.

(** C8 at a [.jpeg] panorama: the file passes the extension filter, and
    cutting four characters leaves the dot in the name, so direction 0 is
    written to [pano._0.png] where the spec names [pano_0.png]; the
    ground-truth function's own [i.split(".")[0]] does yield [pano].  With a
    three-letter extension the two names agree. *)
Theorem out_path_jpeg :
  endswith_any (lower "pano.jpeg") image_exts = true
  ∧ out_path "data/planar_projections" "pano.jpeg" 0 "png"
    = "data/planar_projections/pano._0.png"
  ∧ spec_out_path "data/planar_projections" "pano.jpeg" 0 "png"
    = "data/planar_projections/pano_0.png"
  ∧ (∀ isfile,
       pano_events isfile jpeg_options (mkGrid 120 [(0, 0)]) "pano.jpeg"
       = Ok [Warp (mkEqui2Pers (Some 800%Z) (Some 800%Z) 120 "bilinear")
               Color (rots_of (0, 0)) None;
             ImWrite "data/planar_projections/pano._0.png" Color])
  ∧ before_dot "pano.jpeg" = "pano"
  ∧ out_path "data/planar_projections" "pano.png" 0 "png"
    = spec_out_path "data/planar_projections" "pano.png" 0 "png".
Proof. repeat split. Qed.

(** ** Ground-truth frames *)

Lemma gt_direction_frame (o : OptionsGT) (fov : Q) (i : string) (P : Matrix)
    (count : nat) (d : Q * Q) (st : GTState) :
  is_4x4 P → gt_mask_dir o = None →
  ∃ st' fr,
    gt_direction o fov i P count d st = Ok st'
    ∧ frames st' = frames st ++ [fr]
    ∧ file_path fr
      = out_path (gt_output_dir o) i count (if is_exr i then "exr" else "png")
    ∧ exposure fr = frame_exposure o i.
Proof.
  intros HP Hmask. destruct d as [u v].
  destruct (perspective_pose_block P u v HP)
    as (E_inv & pose & _ & _ & _ & Hpose & _).
  unfold gt_direction. rewrite Hmask, Hpose. cbn [mbind Result_bind].
  unfold frame_exposure, exposure_of.
  destruct (use_mask o), (is_exr i); do 2 eexists;
    (split; [reflexivity|]); cbn [frames file_path exposure];
    repeat split; reflexivity.
Qed.

Lemma gt_directions_frames (o : OptionsGT) (fov : Q) (i : string)
    (P : Matrix) (dirs : list (Q * Q)) :
  is_4x4 P → gt_mask_dir o = None →
  ∀ (count : nat) (st : GTState),
    ∃ st' frs,
      gt_directions (gt_direction o fov i P) count dirs st = Ok st'
      ∧ frames st' = frames st ++ frs
      ∧ length frs = length dirs
      ∧ Forall (λ fr, exposure fr = frame_exposure o i) frs.
Proof.
  intros HP Hmask.
  induction dirs as [|d dirs IH]; intros count st.
  - exists st, []. cbn. rewrite app_nil_r. repeat split. constructor.
  - destruct (gt_direction_frame o fov i P count d st HP Hmask)
      as (st1 & fr & Hstep & Hfr & _ & Hexp).
    destruct (IH (S count) st1) as (st' & frs & Hrest & Hfrs & Hlen & Hall).
    exists st', (fr :: frs).
    cbn [gt_directions]. rewrite Hstep. cbn [mbind Result_bind].
    split; [exact Hrest|]. split.
    + rewrite Hfrs, Hfr, <- app_assoc. reflexivity.
    + split; [cbn; rewrite Hlen; reflexivity | constructor; assumption].
Qed.

Lemma gt_pano_frames (o : OptionsGT) (g : SampleGrid)
    (camera_to_worlds_panos : gmap string Matrix) (i : string) (P : Matrix)
    (st : GTState) :
  endswith_any (lower i) image_exts = true →
  camera_to_worlds_panos !! drop_last 4 i = Some P →
  is_4x4 P → gt_mask_dir o = None →
  ∃ st' frs,
    gt_pano o g camera_to_worlds_panos i st = Ok st'
    ∧ frames st' = frames st ++ frs
    ∧ length frs = length (yaw_pitch_pairs g)
    ∧ Forall (λ fr, exposure fr = frame_exposure o i) frs.
Proof.
  intros Hext Hkey HP Hmask. unfold gt_pano. rewrite Hext, Hkey.
  apply gt_directions_frames; assumption.
Qed.

(** C9, as stated, fails: with exposure output enabled, the eight frames
    rendered from [pano.png] carry no exposure entry at all. *)
Lemma png_frames_without_exposure :
  use_exposure exposure_options = true
  ∧ ∃ st',
      gt_pano exposure_options grid8 {["pano" := sample_pose]} "pano.png"
        (mkGTState false [] []) = Ok st'
      ∧ length (frames st') = 8%nat
      ∧ Forall (λ fr, exposure fr = None) (frames st').
Proof.
  split; [reflexivity|].
  destruct (gt_pano_frames exposure_options grid8 {["pano" := sample_pose]}
              "pano.png" sample_pose (mkGTState false [] []))
    as (st' & frs & Hrun & Hfr & Hlen & Hall).
  - reflexivity.
  - apply lookup_singleton_eq.
  - split; [reflexivity | repeat constructor].
  - reflexivity.
  - exists st'. cbn in Hfr. rewrite Hfr.
    split; [exact Hrun|]. split; [exact Hlen | exact Hall].
Qed.

(** C9, amended: in ground-truth mode with exposure output enabled, a
    panorama whose pose is on record yields one frame per direction; when
    the panorama is an [.exr] file every such frame carries an exposure,
    0.009 if the file name begins with "rhs" and 1.0 otherwise; frames of
    any other panorama carry none. *)
Theorem gt_frames_exposure (o : OptionsGT) (g : SampleGrid)
    (camera_to_worlds_panos : gmap string Matrix) (i : string) (P : Matrix)
    (st : GTState) :
  use_exposure o = true →
  endswith_any (lower i) image_exts = true →
  camera_to_worlds_panos !! drop_last 4 i = Some P →
  is_4x4 P → gt_mask_dir o = None →
  ∃ st' frs,
    gt_pano o g camera_to_worlds_panos i st = Ok st'
    ∧ frames st' = frames st ++ frs
    ∧ length frs = length (yaw_pitch_pairs g)
    ∧ (endswith (lower i) ".exr" = true →
       slice_to 3 i = "rhs" →
       Forall (λ fr, exposure fr = Some 0.009) frs)
    ∧ (endswith (lower i) ".exr" = true →
       slice_to 3 i ≠ "rhs" →
       Forall (λ fr, exposure fr = Some 1) frs)
    ∧ (endswith (lower i) ".exr" = false →
       Forall (λ fr, exposure fr = None) frs).
Proof.
  intros Hexp Hext Hkey HP Hmask.
  destruct (gt_pano_frames o g camera_to_worlds_panos i P st
              Hext Hkey HP Hmask) as (st' & frs & Hrun & Hfr & Hlen & Hall).
  exists st', frs. do 3 (split; [assumption|]).
  unfold frame_exposure, is_exr in Hall. rewrite Hexp in Hall.
  split; [|split].
  - intros Hexr Hrhs. apply String.eqb_eq in Hrhs.
    rewrite Hexr, Hrhs in Hall. exact Hall.
  - intros Hexr Hrhs. apply String.eqb_neq in Hrhs.
    rewrite Hexr, Hrhs in Hall. exact Hall.
  - intros Hexr. rewrite Hexr in Hall. exact Hall.
Qed.

Lemma gt_frames_exposure_witness :
  ∃ st' frs,
    gt_pano exposure_options grid8 {["rhs_01" := sample_pose]} "rhs_01.exr"
      (mkGTState false [] []) = Ok st'
    ∧ frames st' = frs
    ∧ length frs = 8%nat
    ∧ Forall (λ fr, exposure fr = Some 0.009) frs.
Proof.
  assert (Hexp : use_exposure exposure_options = true) by reflexivity.
  assert (Hext : endswith_any (lower "rhs_01.exr") image_exts = true)
    by reflexivity.
  assert (Hkey : ({["rhs_01" := sample_pose]} : gmap string Matrix)
                 !! drop_last 4 "rhs_01.exr" = Some sample_pose)
    by apply lookup_singleton_eq.
  assert (HP : is_4x4 sample_pose)
    by (split; [reflexivity | repeat constructor]).
  assert (Hmask : gt_mask_dir exposure_options = None) by reflexivity.
  destruct (gt_frames_exposure exposure_options grid8 {["rhs_01" := sample_pose]}
              "rhs_01.exr" sample_pose (mkGTState false [] [])
              Hexp Hext Hkey HP Hmask)
    as (st' & frs & Hrun & Hfr & Hlen & Hrhs & _ & _).
  exists st', frs.
  split; [exact Hrun|]. split; [exact Hfr|]. split; [exact Hlen|].
  apply Hrhs; reflexivity.
Defined.

(** * Further properties of the module *)

(** ** The crop passes on arbitrary lists *)


(** Entries that are numbers stay numbers when one entry is overwritten
    with a number. *)
Lemma numbers_insert (bound_arr : RingBounds) (js : list nat) (j : nat)
    (v : Q) :
  (∀ k, k ∈ js → ∃ a, bound_arr !! k = Some (Some a)) →
  ∀ k, k ∈ js → ∃ a, <[j := Some v]> bound_arr !! k = Some (Some a).
Proof.
  intros H k Hk. destruct (H k Hk) as [a Ha].
  destruct (decide (k = j)) as [->|Hne].
  - exists v. apply list_lookup_insert_eq. eapply lookup_lt_Some, Ha.
  - exists a. rewrite list_lookup_insert_ne; [assumption|congruence].
Qed.


Lemma top_redistribute_numbers (js : list nat) :
  ∀ (bound_arr : RingBounds) (diff : Q) (i : nat),
    (∀ k, k ∈ js → ∃ a, bound_arr !! k = Some (Some a)) →
    ∃ out, top_redistribute bound_arr diff i js = Ok out
           ∧ length out = length bound_arr.
Proof.
  induction js as [|j js IH]; intros arr diff i Hnum.
  - exists arr. split; reflexivity.
  - cbn [top_redistribute].
    destruct (Hnum j) as [a Ha]; [left|]. rewrite Ha. cbn.
    destruct (IH (<[j := Some (a + diff / pow2 (j - i))]> arr) diff i)
      as (out & Hout & Hlen).
    + apply numbers_insert. intros k Hk. apply Hnum. right. exact Hk.
    + exists out. split; [exact Hout|]. rewrite Hlen. apply length_insert.
Qed.

Lemma top_scan_numbers (start fov : Q) (m : nat) :
  ∀ (i : nat) (bound_arr : RingBounds),
    (i + m)%nat = length bound_arr →
    (∀ k, (i ≤ k < length bound_arr)%nat
          → ∃ a, bound_arr !! k = Some (Some a)) →
    ∃ out, top_scan start fov (seq i m) bound_arr = Ok out
           ∧ length out = length bound_arr.
Proof.
  induction m as [|m IH]; intros i arr Hlen Hnum.
  - exists arr. split; reflexivity.
  - cbn [seq top_scan].
    destruct (Hnum i) as [a Ha]; [lia|]. rewrite Ha. cbn -[num_lt].
    destruct (num_lt a (start - fov / 2)).
    + destruct (IH (S i) (<[i := None]> arr)) as (out & Hout & Hl).
      * rewrite length_insert. lia.
      * intros k Hk. rewrite length_insert in Hk.
        rewrite list_lookup_insert_ne by lia. apply Hnum. lia.
      * exists out. split; [exact Hout|]. rewrite Hl. apply length_insert.
    + destruct (num_lt a start).
      * destruct (top_redistribute_numbers (range_up i (length arr))
                    (<[i := Some start]> arr) (start - a) i)
          as (out & Hout & Hl).
        -- apply numbers_insert. intros k Hk. apply Hnum.
           unfold range_up in Hk. apply elem_of_seq in Hk. lia.
        -- exists out. split; [exact Hout|]. rewrite Hl. apply length_insert.
      * apply IH; [lia|]. intros k Hk. apply Hnum. lia.
Qed.

Lemma not_none_number (bound_arr : RingBounds) (k : nat) :
  None ∉ bound_arr → (k < length bound_arr)%nat →
  ∃ a, bound_arr !! k = Some (Some a).
Proof.
  intros Hno Hk. destruct (lookup_lt_is_Some_2 bound_arr k Hk) as [[a|] Hx].
  - exists a. exact Hx.
  - exfalso. apply Hno. eapply list_elem_of_lookup_2, Hx.
Qed.

Lemma crop_top_numbers (bound_arr : RingBounds) (fov crop_factor : Q) :
  None ∉ bound_arr →
  ∃ out, _crop_top bound_arr fov crop_factor = Ok out
         ∧ length out = length bound_arr.
Proof.
  intros Hno. unfold _crop_top. apply top_scan_numbers; [lia|].
  intros k Hk. apply not_none_number; [exact Hno | lia].
Qed.











(** ** The program's rings under a one-sided crop *)

(** X3: the rings (-45, 0, 45) under a bottom crop alone, at either preset's
    field of view.  The pass returns three entries; every pitch that is
    left is at most [90 - 180 f - F/2]; the pitches left are in ascending
    order; and the rings removed are the upper ones (once a ring is
    removed, all rings above it are). *)
Theorem bottom_crop_rings (F f : Q) :
  F = 120 ∨ F = 110 → 0 < f →
  ∃ out, _crop_bottom [Some (-45); Some 0; Some 45] F f = Ok out
    ∧ length out = 3%nat
    ∧ (∀ k p, out !! k = Some (Some p) → p <= 90 - 180 * f - F / 2)
    ∧ (∀ j k p q, (j < k)%nat → out !! j = Some (Some p) →
         out !! k = Some (Some q) → p <= q)
    ∧ (∀ j k, (j ≤ k < 3)%nat → out !! j = Some None → out !! k = Some None).
Proof.
  intros HF Hf.
  assert (H01 : -45 <= 0) by lra. assert (H12 : 0 <= 45) by lra.
  rewrite (crop_bottom_cases (-45) 0 45 F f H01 H12). cbn zeta.
  change (2 ^ 1) with 2. change (2 ^ 2) with 4.
  eexists. split; [reflexivity|].
  destruct HF as [-> | ->];
    (repeat match goal with
            | |- context [num_gt ?x ?y] => destruct (num_gt x y) eqn:?
            | |- context [num_lt ?x ?y] => destruct (num_lt x y) eqn:?
            end);
    rewrite ?num_gt_true, ?num_gt_false, ?num_lt_true, ?num_lt_false in *;
    unfold Qdiv in *;
    change (/ 2) with (1 # 2) in *; change (/ 4) with (1 # 4) in *.
  all: split; [reflexivity|].
  all: split; [|split].
  all: try (intros [|[|[|k]]] p Hp; cbn in Hp; try discriminate Hp;
            injection Hp as <-; lra).
  all: try (intros [|[|[|j]]] [|[|[|k]]] p q Hjk Hp Hq; cbn in Hp, Hq;
            try discriminate Hp; try discriminate Hq; try lia;
            injection Hp as <-; injection Hq as <-; lra).
  all: intros [|[|[|j]]] [|[|[|k]]] Hjk Hn; cbn in Hn |- *;
       try discriminate Hn; try reflexivity; try lia; exfalso; lra.
Qed.

Lemma bottom_crop_rings_witness :
  0 < 0.3
  ∧ ∃ out, _crop_bottom [Some (-45); Some 0; Some 45] 120 0.3 = Ok out
      ∧ length out = 3%nat
      ∧ (∀ k p, out !! k = Some (Some p) → p <= 90 - 180 * 0.3 - 120 / 2).
Proof.
  assert (Hf : 0 < 0.3) by reflexivity.
  split; [exact Hf|].
  destruct (bottom_crop_rings 120 0.3 (or_introl eq_refl) Hf)
    as (out & Hout & Hlen & Hmax & _).
  exists out. repeat split; assumption.
Defined.

(** X4: the rings (-45, 0, 45) under a top crop alone, at either preset's
    field of view.  The pass returns three entries; every pitch that is
    left is at least [-90 + 180 f + F/2]; the pitches left are in ascending
    order; and the rings removed are the lower ones. *)
Theorem top_crop_rings (F f : Q) :
  F = 120 ∨ F = 110 → 0 < f →
  ∃ out, _crop_top [Some (-45); Some 0; Some 45] F f = Ok out
    ∧ length out = 3%nat
    ∧ (∀ k p, out !! k = Some (Some p) → -90 + 180 * f + F / 2 <= p)
    ∧ (∀ j k p q, (j < k)%nat → out !! j = Some (Some p) →
         out !! k = Some (Some q) → p <= q)
    ∧ (∀ j k, (j ≤ k)%nat → out !! k = Some None → out !! j = Some None).
Proof.
  intros HF Hf.
  assert (H01 : -45 <= 0) by lra. assert (H12 : 0 <= 45) by lra.
  rewrite (crop_top_cases (-45) 0 45 F f H01 H12). cbn zeta.
  change (2 ^ 1) with 2. change (2 ^ 2) with 4.
  eexists. split; [reflexivity|].
  destruct HF as [-> | ->];
    (repeat match goal with
            | |- context [num_gt ?x ?y] => destruct (num_gt x y) eqn:?
            | |- context [num_lt ?x ?y] => destruct (num_lt x y) eqn:?
            end);
    rewrite ?num_gt_true, ?num_gt_false, ?num_lt_true, ?num_lt_false in *;
    unfold Qdiv in *;
    change (/ 2) with (1 # 2) in *; change (/ 4) with (1 # 4) in *.
  all: split; [reflexivity|].
  all: split; [|split].
  all: try (intros [|[|[|k]]] p Hp; cbn in Hp; try discriminate Hp;
            injection Hp as <-; lra).
  all: try (intros [|[|[|j]]] [|[|[|k]]] p q Hjk Hp Hq; cbn in Hp, Hq;
            try discriminate Hp; try discriminate Hq; try lia;
            injection Hp as <-; injection Hq as <-; lra).
  all: intros [|[|[|j]]] [|[|[|k]]] Hjk Hn; cbn in Hn |- *;
       try discriminate Hn; try reflexivity; try lia; exfalso; lra.
Qed.

Lemma top_crop_rings_witness :
  0 < 0.3
  ∧ ∃ out, _crop_top [Some (-45); Some 0; Some 45] 110 0.3 = Ok out
      ∧ length out = 3%nat
      ∧ (∀ k p, out !! k = Some (Some p) → -90 + 180 * 0.3 + 110 / 2 <= p).
Proof.
  assert (Hf : 0 < 0.3) by reflexivity.
  split; [exact Hf|].
  destruct (top_crop_rings 110 0.3 (or_intror eq_refl) Hf)
    as (out & Hout & Hlen & Hmin & _).
  exists out. repeat split; assumption.
Defined.


(** ** Where the grid builder raises *)


Lemma vertical_rings (F : Q) (crop : CropFactor) :
  (1 # 4 < crop1 crop ∧ 0 < crop0 crop →
   _crop_bound_arr_vertical [Some (-45); Some 0; Some 45] F crop
   = Raise TypeError)
  ∧ (¬ (1 # 4 < crop1 crop ∧ 0 < crop0 crop) →
     ∃ out, _crop_bound_arr_vertical [Some (-45); Some 0; Some 45] F crop
            = Ok out ∧ length out = 3%nat).
Proof.
  assert (H01 : -45 <= 0) by lra. assert (H12 : 0 <= 45) by lra.
  assert (Hnum : ∀ a b c : Q, None ∉ [Some a; Some b; Some c]).
  { intros a b c H. repeat (apply elem_of_cons in H as [H|H]; [discriminate|]).
    inversion H. }
  unfold _crop_bound_arr_vertical.
  destruct (num_gt (crop1 crop) 0) eqn:Hb.
  - rewrite (crop_bottom_cases (-45) 0 45 F (crop1 crop) H01 H12). cbn zeta.
    cbn [mbind Result_bind].
    destruct (num_gt 45 (90 - 180 * crop1 crop - F / 2 + F / 2)) eqn:H45.
    + assert (Hf : 1 # 4 < crop1 crop).
      { apply num_gt_true in H45. unfold Qdiv in H45. lra. }
      destruct (num_gt (crop0 crop) 0) eqn:Ht.
      * split; [|intros Hn; exfalso; apply Hn; split;
                  [exact Hf | apply num_gt_true, Ht]].
        intros _. apply crop_top_sentinel.
        repeat match goal with
               | |- context [if ?b then _ else _] => destruct b
               end; apply list_elem_of_lookup; exists 2%nat; reflexivity.
      * split.
        -- intros [_ H0]. apply num_gt_false in Ht. lra.
        -- intros _. eexists. split; [reflexivity|].
           repeat match goal with
                  | |- context [if ?b then _ else _] => destruct b
                  end; reflexivity.
    + assert (Hf : crop1 crop <= 1 # 4).
      { apply num_gt_false in H45. unfold Qdiv in H45. lra. }
      split; [intros [H _]; lra|]. intros _.
      destruct (num_gt (crop0 crop) 0).
      * destruct (num_gt 45 (90 - 180 * crop1 crop - F / 2));
          (edestruct crop_top_numbers as (out & Hout & Hlen);
           [apply Hnum | exists out; split; [exact Hout | exact Hlen]]).
      * eexists. split; [reflexivity|].
        destruct (num_gt 45 (90 - 180 * crop1 crop - F / 2)); reflexivity.
  - cbn [mbind Result_bind].
    split; [intros [H _]; apply num_gt_false in Hb; lra|]. intros _.
    destruct (num_gt (crop0 crop) 0).
    + edestruct crop_top_numbers as (out & Hout & Hlen);
        [apply Hnum | exists out; split; [exact Hout | exact Hlen]].
    + eexists. split; reflexivity.
Qed.

(** X5: at presets 8 and 14 the grid builder raises [TypeError] exactly
    when the bottom fraction exceeds 1/4 (the upper ring is removed) and the
    top fraction is positive; for every other crop it returns a grid, with
    field of view 120 at preset 8 and 110 at preset 14. *)
Theorem sample_grid_raises_iff (n : Z) (crop : CropFactor) :
  n = 8%Z ∨ n = 14%Z →
  (1 # 4 < crop1 crop ∧ 0 < crop0 crop →
   sample_grid n crop = Raise TypeError)
  ∧ (¬ (1 # 4 < crop1 crop ∧ 0 < crop0 crop) →
     ∃ g, sample_grid n crop = Ok g
          ∧ grid_fov g = if (n =? 8)%Z then 120 else 110).
Proof.
  intros Hn. unfold sample_grid.
  destruct (horizontal_bounds crop) as [l r].
  destruct Hn as [-> | ->]; cbn [Z.eqb Pos.eqb].
  - destruct (vertical_rings 120 crop) as [Hbad Hgood]. split.
    + intros H. rewrite (Hbad H). reflexivity.
    + intros H. destruct (Hgood H) as (out & -> & _).
      eexists. split; reflexivity.
  - destruct (vertical_rings 110 crop) as [Hbad Hgood]. split.
    + intros H. rewrite (Hbad H). reflexivity.
    + intros H. destruct (Hgood H) as (out & -> & _).
      eexists. split; reflexivity.
Qed.

Lemma sample_grid_raises_iff_witness :
  sample_grid 8 (mkCrop 0.1 0.3 0 0) = Raise TypeError
  ∧ ∃ g, sample_grid 14 (mkCrop 0.1 0.25 0 0) = Ok g ∧ grid_fov g = 110.
Proof.
  split.
  - apply (proj1 (sample_grid_raises_iff 8 (mkCrop 0.1 0.3 0 0)
                    (or_introl eq_refl))).
    split; reflexivity.
  - apply (proj2 (sample_grid_raises_iff 14 (mkCrop 0.1 0.25 0 0)
                    (or_intror eq_refl))).
    intros [H _]. revert H. apply Qle_not_lt. cbn. discriminate.
Defined.

(** ** Yaw samples *)

Lemma arange_bounds (start stop step x : Q) :
  0 < step → x ∈ arange start stop step → start <= x ∧ x < stop.
Proof.
  intros Hstep Hx. unfold arange in Hx.
  apply list_elem_of_fmap in Hx as (k & -> & Hk).
  apply elem_of_seq in Hk. cbn in Hk.
  set (q := (stop - start) / step) in *.
  assert (Hk0 : 0 <= inject_Z (Z.of_nat k)).
  { change 0 with (inject_Z 0). rewrite <- Zle_Qle. lia. }
  assert (Hkq : inject_Z (Z.of_nat k) < q).
  { apply Qle_lt_trans with (inject_Z (Qceiling q - 1)).
    - rewrite <- Zle_Qle. lia.
    - apply Qceiling_lt. }
  assert (Hq : q * step == stop - start).
  { unfold q. field. lra. }
  assert (Hmul : inject_Z (Z.of_nat k) * step < q * step).
  { apply Qmult_lt_compat_r; assumption. }
  split.
  - assert (0 <= inject_Z (Z.of_nat k) * step)
      by (apply Qmult_le_0_compat; lra).
    lra.
  - rewrite Hq in Hmul. lra.
Qed.

Lemma ring_bounds (bound_arr : RingBounds) (k : nat) (l r step u v : Q) :
  0 < step → (u, v) ∈ ring bound_arr k l r step →
  l <= u ∧ u < r ∧ bound_arr !! k = Some (Some v).
Proof.
  intros Hstep. unfold ring.
  destruct (bound_arr !! k) as [[p|]|] eqn:Hk; cbn; intros H;
    try (inversion H; fail).
  apply list_elem_of_fmap in H as (x & Heq & Hx). injection Heq as -> ->.
  destruct (arange_bounds l r step x Hstep Hx). auto.
Qed.

Lemma grid_pairs_bounds (n : Z) (crop : CropFactor) (g : SampleGrid)
    (u v : Q) :
  sample_grid n crop = Ok g → (u, v) ∈ yaw_pitch_pairs g →
  fst (horizontal_bounds crop) <= u ∧ u < snd (horizontal_bounds crop)
  ∧ ∃ out k, _crop_bound_arr_vertical [Some (-45); Some 0; Some 45]
               (grid_fov g) crop = Ok out
             ∧ out !! k = Some (Some v).
Proof.
  unfold sample_grid. destruct (horizontal_bounds crop) as [l r].
  cbn [fst snd]. intros Hg Hin.
  destruct (n =? 8)%Z.
  - destruct (_crop_bound_arr_vertical _ 120 crop) as [out|] eqn:Hout;
      [|discriminate].
    cbn in Hg. injection Hg as <-. cbn [yaw_pitch_pairs grid_fov] in *.
    rewrite !elem_of_app in Hin.
    destruct Hin as [H|[H|H]]; apply ring_bounds in H; try lra;
      destruct H as (Hl & Hr & Hk); eauto 6.
  - destruct (n =? 14)%Z.
    + destruct (_crop_bound_arr_vertical _ 110 crop) as [out|] eqn:Hout;
        [|discriminate].
      cbn in Hg. injection Hg as <-. cbn [yaw_pitch_pairs grid_fov] in *.
      rewrite !elem_of_app in Hin.
      destruct Hin as [H|[H|H]]; apply ring_bounds in H; try lra;
        destruct H as (Hl & Hr & Hk); eauto 6.
    + injection Hg as <-. inversion Hin.
Qed.

Lemma arange_elements (start stop step x : Q) :
  x ∈ arange start stop step →
  ∃ k : nat, x = start + inject_Z (Z.of_nat k) * step.
Proof.
  unfold arange. intros Hx.
  apply list_elem_of_fmap in Hx as (k & -> & _). exists k. reflexivity.
Qed.

Lemma ring_elements (bound_arr : RingBounds) (k : nat) (l r step u v : Q) :
  (u, v) ∈ ring bound_arr k l r step →
  ∃ j : nat, u = l + inject_Z (Z.of_nat j) * step.
Proof.
  unfold ring.
  destruct (bound_arr !! k) as [[p|]|]; cbn; intros H;
    try (inversion H; fail).
  apply list_elem_of_fmap in H as (x & Heq & Hx). injection Heq as -> ->.
  apply arange_elements in Hx. exact Hx.
Qed.

(** Every yaw is the left bound plus a whole number of steps of 60, 90 or
    180 degrees. *)
Lemma grid_pairs_steps (n : Z) (crop : CropFactor) (g : SampleGrid)
    (u v : Q) :
  sample_grid n crop = Ok g → (u, v) ∈ yaw_pitch_pairs g →
  ∃ (j : nat) (s : Z),
    (s = 4 ∨ s = 6 ∨ s = 12)%Z
    ∧ u = fst (horizontal_bounds crop)
          + inject_Z (Z.of_nat j) * inject_Z (15 * s).
Proof.
  unfold sample_grid. destruct (horizontal_bounds crop) as [l r].
  cbn [fst snd]. intros Hg Hin.
  destruct (n =? 8)%Z.
  - destruct (_crop_bound_arr_vertical _ 120 crop) as [out|] eqn:Hout;
      [|discriminate].
    cbn in Hg. injection Hg as <-. cbn [yaw_pitch_pairs] in Hin.
    rewrite !elem_of_app in Hin.
    destruct Hin as [H|[H|H]]; apply ring_elements in H as [j ->];
      exists j; [exists 6%Z | exists 12%Z | exists 12%Z]; split;
      first [reflexivity | lia].
  - destruct (n =? 14)%Z.
    + destruct (_crop_bound_arr_vertical _ 110 crop) as [out|] eqn:Hout;
        [|discriminate].
      cbn in Hg. injection Hg as <-. cbn [yaw_pitch_pairs] in Hin.
      rewrite !elem_of_app in Hin.
      destruct Hin as [H|[H|H]]; apply ring_elements in H as [j ->];
        exists j; [exists 4%Z | exists 6%Z | exists 6%Z]; split;
        first [reflexivity | lia].
    + injection Hg as <-. inversion Hin.
Qed.

(** For a fraction that is a whole number of eighths the bound it moves is
    a whole multiple of 45 degrees. *)
Lemma left_bound_eighths (crop : CropFactor) (b : Z) :
  (0 <= b)%Z → crop3 crop == b # 8 →
  fst (horizontal_bounds crop) == inject_Z (45 * b - 180).
Proof.
  intros Hb Hc. unfold horizontal_bounds. cbn [fst].
  assert (Hq : crop3 crop == inject_Z b / 8)
    by (rewrite Hc; unfold Qeq; cbn; lia).
  destruct (num_gt (crop3 crop) 0) eqn:E;
    rewrite ?num_gt_true, ?num_gt_false in E.
  - unfold Z.sub. rewrite inject_Z_plus, inject_Z_mult, Hq.
    change (inject_Z (- (180))%Z) with (-180). change (inject_Z 45) with 45.
    unfold Qdiv. change (/ 8) with (1 # 8).
    generalize (inject_Z b). intros x. lra.
  - assert (Hb0 : inject_Z b <= 0).
    { rewrite Hq in E. unfold Qdiv in E. change (/ 8) with (1 # 8) in E.
      lra. }
    change 0 with (inject_Z 0) in Hb0. rewrite <- Zle_Qle in Hb0.
    replace b with 0%Z by lia. reflexivity.
Qed.

Lemma right_bound_eighths (crop : CropFactor) (a : Z) :
  (0 <= a)%Z → crop2 crop == a # 8 →
  snd (horizontal_bounds crop) == inject_Z (180 - 45 * a).
Proof.
  intros Ha Hc. unfold horizontal_bounds. cbn [snd].
  assert (Hq : crop2 crop == inject_Z a / 8)
    by (rewrite Hc; unfold Qeq; cbn; lia).
  destruct (num_gt (crop2 crop) 0) eqn:E;
    rewrite ?num_gt_true, ?num_gt_false in E.
  - unfold Z.sub. rewrite inject_Z_plus, <- Z.mul_opp_l, inject_Z_mult, Hq.
    change (inject_Z (- (45))%Z) with (-45). change (inject_Z 180) with 180.
    unfold Qdiv. change (/ 8) with (1 # 8).
    generalize (inject_Z a). intros x. lra.
  - assert (Ha0 : inject_Z a <= 0).
    { rewrite Hq in E. unfold Qdiv in E. change (/ 8) with (1 # 8) in E.
      lra. }
    change 0 with (inject_Z 0) in Ha0. rewrite <- Zle_Qle in Ha0.
    replace a with 0%Z by lia. reflexivity.
Qed.

(** X6: when the left and right fractions are whole numbers of eighths,
    both yaw bounds are whole multiples of 45 degrees (numbers that the
    program's floating-point arithmetic represents exactly), and every
    direction of a grid that the builder returns has its yaw inside the
    yaw interval, lower bound included and upper bound excluded; the yaw
    is a whole multiple of 15 degrees; and the pitch is an entry that the
    vertical solver left in place. *)
Theorem grid_directions_within_bounds (n : Z) (crop : CropFactor)
    (g : SampleGrid) (u v : Q) :
  eighths (crop2 crop) → eighths (crop3 crop) →
  sample_grid n crop = Ok g → (u, v) ∈ yaw_pitch_pairs g →
  (∃ z : Z, fst (horizontal_bounds crop) == inject_Z (45 * z))
  ∧ (∃ z : Z, snd (horizontal_bounds crop) == inject_Z (45 * z))
  ∧ fst (horizontal_bounds crop) <= u ∧ u < snd (horizontal_bounds crop)
  ∧ (∃ z : Z, u == inject_Z (15 * z))
  ∧ ∃ out k, _crop_bound_arr_vertical [Some (-45); Some 0; Some 45]
               (grid_fov g) crop = Ok out
             ∧ out !! k = Some (Some v).
Proof.
  intros (a & Ha & Hca) (b & Hb & Hcb) Hg Hin.
  destruct (grid_pairs_bounds n crop g u v Hg Hin) as (Hl & Hr & Hout).
  split.
  { exists (b - 4)%Z.
    rewrite (left_bound_eighths crop b) by (first [lia | exact Hcb]).
    apply inject_Z_injective. lia. }
  split.
  { exists (4 - a)%Z.
    rewrite (right_bound_eighths crop a) by (first [lia | exact Hca]).
    apply inject_Z_injective. lia. }
  split; [exact Hl|]. split; [exact Hr|]. split; [|exact Hout].
  destruct (grid_pairs_steps n crop g u v Hg Hin) as (j & s & _ & ->).
  exists (3 * b - 12 + Z.of_nat j * s)%Z.
  rewrite (left_bound_eighths crop b) by (first [lia | exact Hcb]).
  rewrite <- inject_Z_mult, <- inject_Z_plus.
  apply inject_Z_injective. lia.
Qed.

Lemma grid_directions_within_bounds_witness :
  ∃ g u, sample_grid 8 (mkCrop 0 0 (1 # 4) (3 # 8)) = Ok g
         ∧ (u, 0) ∈ yaw_pitch_pairs g
         ∧ u == 45 ∧ -45 <= u ∧ u < 90 ∧ ∃ z : Z, u == inject_Z (15 * z).
Proof.
  set (crop := mkCrop 0 0 (1 # 4) (3 # 8)).
  set (g := mkGrid 120 [(-360 # 8, 0); (360 # 8, 0);
                        (-360 # 8, 45); (-360 # 8, -45)]).
  assert (Hg : sample_grid 8 crop = Ok g) by reflexivity.
  assert (Hin : (360 # 8, 0) ∈ yaw_pitch_pairs g).
  { apply list_elem_of_lookup. exists 1%nat. reflexivity. }
  assert (H2 : eighths (crop2 crop))
    by (exists 2%Z; split; [lia | reflexivity]).
  assert (H3 : eighths (crop3 crop))
    by (exists 3%Z; split; [lia | reflexivity]).
  destruct (grid_directions_within_bounds 8 crop g (360 # 8) 0
              H2 H3 Hg Hin) as (_ & _ & Hl & Hr & Hz & _).
  exists g, (360 # 8).
  split; [exact Hg|]. split; [exact Hin|]. split; [reflexivity|].
  split; [|split]; [| |exact Hz].
  - apply Qle_trans with (fst (horizontal_bounds crop));
      [vm_compute; discriminate | exact Hl].
  - apply Qlt_le_trans with (snd (horizontal_bounds crop));
      [exact Hr | vm_compute; discriminate].
Defined.

(** X7: when the left and the right fraction are each one half or more,
    the left bound is at 0 degrees or beyond and the right bound at 0
    degrees or before, so the yaw interval is empty and a grid that the
    builder returns has no direction at all. *)
Theorem grid_empty_beyond_half (n : Z) (crop : CropFactor)
    (g : SampleGrid) :
  1 / 2 <= crop2 crop → 1 / 2 <= crop3 crop →
  sample_grid n crop = Ok g →
  0 <= fst (horizontal_bounds crop) ∧ snd (horizontal_bounds crop) <= 0
  ∧ yaw_pitch_pairs g = [].
Proof.
  intros H2 H3 Hg.
  unfold Qdiv in H2, H3. change (/ 2) with (1 # 2) in H2, H3.
  assert (Hb : 0 <= fst (horizontal_bounds crop)
               ∧ snd (horizontal_bounds crop) <= 0).
  { unfold horizontal_bounds. cbn [fst snd].
    destruct (num_gt (crop3 crop) 0) eqn:E3, (num_gt (crop2 crop) 0) eqn:E2;
      rewrite ?num_gt_true, ?num_gt_false in *; lra. }
  destruct Hb as [Hl0 Hr0]. split; [exact Hl0|]. split; [exact Hr0|].
  destruct (yaw_pitch_pairs g) as [|[u v] rest] eqn:Hpairs; [reflexivity|].
  exfalso.
  destruct (grid_pairs_bounds n crop g u v Hg) as (Hl & Hr & _).
  { rewrite Hpairs. left. }
  lra.
Qed.

Lemma grid_empty_beyond_half_witness :
  ∃ g, sample_grid 8 (mkCrop 0 0 0.5 0.75) = Ok g ∧ yaw_pitch_pairs g = [].
Proof.
  assert (Hg : sample_grid 8 (mkCrop 0 0 0.5 0.75) = Ok (mkGrid 120 []))
    by reflexivity.
  exists (mkGrid 120 []). split; [exact Hg|].
  apply (grid_empty_beyond_half 8 (mkCrop 0 0 0.5 0.75) _); cbn;
    first [discriminate | exact Hg].
Defined.

(** ** Validation of the crop fractions *)

Lemma check_crop_factor_spec (crop : CropFactor) :
  (Forall (λ c, 0 <= c ∧ c <= 1)
     [crop0 crop; crop1 crop; crop2 crop; crop3 crop] →
   check_crop_factor crop = Ok ())
  ∧ (¬ Forall (λ c, 0 <= c ∧ c <= 1)
         [crop0 crop; crop1 crop; crop2 crop; crop3 crop] →
     check_crop_factor crop = Raise (SystemExit 1)).
Proof.
  unfold check_crop_factor.
  destruct (existsb _ _) eqn:E.
  - split; [|reflexivity]. intros Hall. exfalso.
    apply existsb_exists in E as (c & Hc & Hbad).
    apply list_elem_of_In in Hc.
    rewrite Forall_forall in Hall. destruct (Hall c Hc) as [H0 H1].
    apply orb_true_iff in Hbad as [H|H];
      [apply num_lt_true in H | apply num_gt_true in H]; lra.
  - split; [reflexivity|]. intros Hbad. exfalso. apply Hbad.
    apply Forall_forall. intros c Hc. apply list_elem_of_In in Hc.
    rewrite <- not_true_iff_false, existsb_exists in E.
    split.
    + apply num_lt_false. apply not_true_iff_false. intros H.
      apply E. exists c. rewrite H. auto.
    + apply num_gt_false. apply not_true_iff_false. intros H.
      apply E. exists c. rewrite H, orb_true_r. auto.
Qed.

(** X8: a crop fraction below 0 or above 1 ends each of the three
    generators with [sys.exit(1)], before the grid is built or any file is
    looked at; fractions that all lie in [0, 1] pass the check. *)
Theorem invalid_crop_exits (isfile : string → bool) (o : Options)
    (o2 : Options2) (ogt : OptionsGT) (poses : gmap string Matrix)
    (listdir : list string) (crop : CropFactor) :
  (Forall (λ c, 0 <= c ∧ c <= 1)
     [crop0 crop; crop1 crop; crop2 crop; crop3 crop] →
   check_crop_factor crop = Ok ())
  ∧ (¬ Forall (λ c, 0 <= c ∧ c <= 1)
         [crop0 crop; crop1 crop; crop2 crop; crop3 crop] →
     (crop_factor o = crop →
      generate_planar_projections_from_equirectangular isfile o listdir
      = Raise (SystemExit 1))
     ∧ (crop_factor2 o2 = crop →
        generate_planar_projections_from_equirectangular_with_two_exposures
          isfile o2 listdir = Raise (SystemExit 1))
     ∧ (gt_crop_factor ogt = crop →
        generate_planar_projections_from_equirectangular_GT ogt poses listdir
        = Raise (SystemExit 1))).
Proof.
  destruct (check_crop_factor_spec crop) as [Hok Hbad].
  split; [exact Hok|]. intros H. specialize (Hbad H).
  repeat split; intros Hc; subst crop.
  - unfold generate_planar_projections_from_equirectangular.
    rewrite Hbad. reflexivity.
  - unfold generate_planar_projections_from_equirectangular_with_two_exposures.
    rewrite Hbad. reflexivity.
  - unfold generate_planar_projections_from_equirectangular_GT.
    rewrite Hbad. reflexivity.
Qed.

Lemma invalid_crop_exits_witness :
  generate_planar_projections_from_equirectangular (λ _, true)
    (mkOptions "data" (800, 800)%Z 8 None None (mkCrop 0 0 0 1.5) false
       (None, None)) ["pano.png"]
  = Raise (SystemExit 1).
Proof.
  set (o := mkOptions "data" (800, 800)%Z 8 None None (mkCrop 0 0 0 1.5)
              false (None, None)).
  assert (Hbad : ¬ Forall (λ c, 0 <= c ∧ c <= 1) [0; 0; 0; 1.5]).
  { intros H. rewrite !Forall_cons in H.
    destruct H as (_ & _ & _ & [_ H] & _). revert H. apply Qlt_not_le.
    reflexivity. }
  apply (proj2 (invalid_crop_exits (λ _, true) o lantern_options
                  exposure_options ∅ ["pano.png"] (mkCrop 0 0 0 1.5)) Hbad).
  reflexivity.
Defined.

(** ** Output files *)

Lemma string_append_inv_head (s a b : string) : s +:+ a = s +:+ b → a = b.
Proof.
  induction s as [|c s IH]; simpl; intros H; [exact H|].
  injection H as H. apply IH, H.
Qed.

Lemma string_append_inv_tail (t : string) :
  ∀ a b : string, a +:+ t = b +:+ t → a = b.
Proof.
  induction a as [|c a IH]; intros [|c' b] H; simpl in H.
  - reflexivity.
  - exfalso. apply (f_equal String.length) in H.
    rewrite !string_length_append in H. simpl in H.
    rewrite ?string_length_append in H. lia.
  - exfalso. apply (f_equal String.length) in H.
    rewrite !string_length_append in H. simpl in H.
    rewrite ?string_length_append in H. lia.
  - injection H as -> H. f_equal. apply IH, H.
Qed.

Lemma str_of_nat_inj (m n : nat) : str_of_nat m = str_of_nat n → m = n.
Proof.
  unfold str_of_nat. intros H.
  apply (f_equal NilEmpty.uint_of_string) in H.
  rewrite !NilEmpty.usu in H. injection H as H.
  apply (f_equal Nat.of_uint) in H.
  rewrite !DecimalNat.Unsigned.of_to in H. exact H.
Qed.

(** Two directions of one panorama are never written to one file. *)
Lemma out_path_inj (d i ext : string) (m n : nat) :
  out_path d i m ext = out_path d i n ext → m = n.
Proof.
  unfold out_path. intros H.
  do 4 apply string_append_inv_head in H.
  apply string_append_inv_tail in H. apply str_of_nat_inj, H.
Qed.

Lemma writes_app (ch : Channel) (es es' : list Event) :
  writes ch (es ++ es') = writes ch es ++ writes ch es'.
Proof. apply omap_app. Qed.

Lemma writes_for_directions (ch : Channel) (dirs : list (Q * Q)) :
  ∀ (body : nat → Q * Q → list Event) (paths : nat → list string),
    (∀ k d, writes ch (body k d) = paths k) →
    writes ch (for_directions body dirs)
    = concat (paths <$> seq 0 (length dirs)).
Proof.
  unfold for_directions.
  induction dirs as [|d dirs IH]; intros body paths Hbody; [reflexivity|].
  cbn [imap concat length seq fmap list_fmap].
  rewrite writes_app, Hbody. f_equal.
  rewrite (IH (body ∘ S) (paths ∘ S)) by (intros; apply Hbody).
  rewrite <- fmap_S_seq, <- list_fmap_compose. reflexivity.
Qed.

Lemma concat_singletons {A B} (f : A → B) (l : list A) :
  concat ((λ x, [f x]) <$> l) = f <$> l.
Proof. induction l as [|x l IH]; cbn; [|rewrite IH]; reflexivity. Qed.

Lemma concat_nils {A B} (l : list A) :
  concat ((λ _, @nil B) <$> l) = [].
Proof. induction l as [|x l IH]; cbn; [|rewrite IH]; reflexivity. Qed.

Lemma out_paths_NoDup (d i ext : string) (n : nat) :
  NoDup ((λ k, out_path d i k ext) <$> seq 0 n).
Proof.
  apply NoDup_fmap_2_strong; [|apply NoDup_seq].
  intros x y _ _. apply out_path_inj.
Qed.

(** X9: what the single-exposure generator writes for one panorama it
    accepts: for each channel in use, one file per direction, named with
    the direction's 0-based position in the grid, in grid order; nothing
    for a channel that is not requested; and no two colour files of the
    panorama share a name. *)
Theorem outputs_per_panorama (isfile : string → bool) (o : Options)
    (g : SampleGrid) (i : string) (evs : list Event) :
  accepted image_exts i = true →
  pano_events isfile o g i = Ok evs →
  let n := length (yaw_pitch_pairs g) in
  writes Color evs
  = (λ k, out_path (output_dir o) i k (if is_exr i then "exr" else "png"))
      <$> seq 0 n
  ∧ writes Mask evs
    = (if mask_dir o is Some _
       then (λ k, out_path (output_mask_dir o) i k "png") <$> seq 0 n
       else [])
  ∧ writes Hdr evs
    = (if hdr_dir o is Some _
       then (λ k, out_path (output_hdr_dir o) i k
                    (if is_HDR o then "exr" else "png")) <$> seq 0 n
       else [])
  ∧ NoDup (writes Color evs).
Proof.
  intros Hacc Hev n. unfold accepted in Hacc. unfold pano_events in Hev.
  rewrite Hacc in Hev.
  destruct (load_companions isfile o i); [|discriminate].
  cbn in Hev. injection Hev as <-.
  assert (HC : writes Color
                 (for_directions (direction_events o (grid_fov g) i)
                    (yaw_pitch_pairs g))
               = (λ k, out_path (output_dir o) i k
                         (if is_exr i then "exr" else "png")) <$> seq 0 n).
  { rewrite (writes_for_directions Color _ _
               (λ k, [out_path (output_dir o) i k
                        (if is_exr i then "exr" else "png")])).
    - apply concat_singletons.
    - intros k d. unfold direction_events.
      destruct (mask_dir o), (hdr_dir o); reflexivity. }
  split; [exact HC|]. split; [|split].
  - destruct (mask_dir o) eqn:Hm.
    + rewrite (writes_for_directions Mask _ _
                 (λ k, [out_path (output_mask_dir o) i k "png"])).
      * apply concat_singletons.
      * intros k d. unfold direction_events. rewrite Hm.
        destruct (hdr_dir o); reflexivity.
    + rewrite (writes_for_directions Mask _ _ (λ _, [])).
      * apply concat_nils.
      * intros k d. unfold direction_events. rewrite Hm.
        destruct (hdr_dir o); reflexivity.
  - destruct (hdr_dir o) eqn:Hh.
    + rewrite (writes_for_directions Hdr _ _
                 (λ k, [out_path (output_hdr_dir o) i k
                          (if is_HDR o then "exr" else "png")])).
      * apply concat_singletons.
      * intros k d. unfold direction_events. rewrite Hh.
        destruct (mask_dir o); reflexivity.
    + rewrite (writes_for_directions Hdr _ _ (λ _, [])).
      * apply concat_nils.
      * intros k d. unfold direction_events. rewrite Hh.
        destruct (mask_dir o); reflexivity.
  - rewrite HC. apply out_paths_NoDup.
Qed.

Lemma outputs_per_panorama_witness :
  ∃ evs,
    pano_events (λ _, true) full_options small_grid "pano.png" = Ok evs
    ∧ writes Color evs
      = ["data/planar_projections/pano_0.png";
         "data/planar_projections/pano_1.png"]
    ∧ writes Mask evs
      = ["data/mask_planar_projections/pano_0.png";
         "data/mask_planar_projections/pano_1.png"]
    ∧ writes Hdr evs
      = ["data/hdr_planar_projections/pano_0.exr";
         "data/hdr_planar_projections/pano_1.exr"].
Proof.
  set (evs := for_directions
                (direction_events full_options 120 "pano.png")
                (yaw_pitch_pairs small_grid)).
  assert (Hacc : accepted image_exts "pano.png" = true) by reflexivity.
  assert (Hev : pano_events (λ _, true) full_options small_grid "pano.png"
                = Ok evs) by reflexivity.
  destruct (outputs_per_panorama (λ _, true) full_options small_grid
              "pano.png" evs Hacc Hev) as (HC & HM & HH & _).
  exists evs. split; [exact Hev|]. rewrite HC, HM, HH. repeat split.
Defined.

(** ** Directory entries and companion files *)

Lemma batch_events_filter (pano : string → Result (list Event))
    (keep : string → bool) (files : list string) :
  (∀ i, keep i = false → pano i = Ok []) →
  batch_events pano files = batch_events pano (List.filter keep files).
Proof.
  intros Hskip. induction files as [|i files IH]; [reflexivity|].
  cbn [batch_events List.filter]. destruct (keep i) eqn:Hk.
  - cbn [batch_events]. rewrite IH. reflexivity.
  - rewrite (Hskip i Hk), <- IH. cbn.
    destruct (batch_events pano files); reflexivity.
Qed.

Lemma gt_batch_filter (step : string → GTState → Result GTState)
    (keep : string → bool) (files : list string) :
  (∀ i st, keep i = false → step i st = Ok st) →
  ∀ st, gt_batch step files st = gt_batch step (List.filter keep files) st.
Proof.
  intros Hskip. induction files as [|i files IH]; intros st; [reflexivity|].
  cbn [gt_batch List.filter]. destruct (keep i) eqn:Hk.
  - cbn [gt_batch]. destruct (step i st); cbn; [apply IH | reflexivity].
  - rewrite (Hskip i st Hk). cbn. apply IH.
Qed.

(** X10: directory entries whose lower-cased name does not end in an image
    extension play no part: each generator gives the same result on a
    listing as on the listing without them (the two-exposure generator also
    leaves out [.exr] entries). *)
Theorem other_entries_ignored (isfile : string → bool) (o : Options)
    (o2 : Options2) (ogt : OptionsGT) (poses : gmap string Matrix)
    (listdir : list string) :
  generate_planar_projections_from_equirectangular isfile o listdir
  = generate_planar_projections_from_equirectangular isfile o
      (List.filter (accepted image_exts) listdir)
  ∧ generate_planar_projections_from_equirectangular_with_two_exposures
      isfile o2 listdir
    = generate_planar_projections_from_equirectangular_with_two_exposures
        isfile o2 (List.filter (accepted [".jpg"; ".png"; ".jpeg"]) listdir)
  ∧ generate_planar_projections_from_equirectangular_GT ogt poses listdir
    = generate_planar_projections_from_equirectangular_GT ogt poses
        (List.filter (accepted image_exts) listdir).
Proof.
  split; [|split].
  - unfold generate_planar_projections_from_equirectangular.
    destruct (check_crop_factor _); [|reflexivity].
    destruct (sample_grid _ _) as [g|]; [|reflexivity]. cbn.
    apply batch_events_filter. intros i Hi. unfold pano_events.
    unfold accepted in Hi. rewrite Hi. reflexivity.
  - unfold
      generate_planar_projections_from_equirectangular_with_two_exposures.
    destruct (check_crop_factor _); [|reflexivity].
    destruct (sample_grid _ _) as [g|]; [|reflexivity]. cbn.
    apply batch_events_filter. intros i Hi. unfold pano_events2.
    unfold accepted in Hi. rewrite Hi. reflexivity.
  - unfold generate_planar_projections_from_equirectangular_GT.
    destruct (check_crop_factor _); [|reflexivity].
    destruct (sample_grid _ _) as [g|]; [|reflexivity]. cbn.
    rewrite (gt_batch_filter _ (accepted image_exts)); [reflexivity|].
    intros i st Hi. unfold gt_pano. unfold accepted in Hi. rewrite Hi.
    reflexivity.
Qed.

Lemma batch_events_raise (pano : string → Result (list Event))
    (files : list string) (i : string) (e : Exn) :
  i ∈ files → pano i = Raise e →
  ∀ evs, batch_events pano files ≠ Ok evs.
Proof.
  intros Hin Hi. induction files as [|j files IH]; [inversion Hin|].
  intros evs. cbn [batch_events].
  apply elem_of_cons in Hin as [<-|Hin].
  - rewrite Hi. discriminate.
  - destruct (pano j); [|discriminate]. cbn.
    destruct (batch_events pano files) as [evs'|] eqn:Hrest; [|discriminate].
    exfalso. apply (IH Hin evs'). reflexivity.
Qed.

(** X11: a mask directory is given and the mask of one accepted entry of the
    listing is missing: that panorama raises the "does not exist" exception
    and the whole run returns no result, whatever the other entries are. *)
Theorem missing_mask_aborts (isfile : string → bool) (o : Options)
    (g : SampleGrid) (listdir : list string) (i md : string) :
  i ∈ listdir → accepted image_exts i = true →
  mask_dir o = Some md → isfile (path_join md i) = false →
  pano_events isfile o g i
  = Raise (Exception
             ("The corresponding mask for " +:+ i +:+ " does not exist!!!"))
  ∧ ∀ evs, generate_planar_projections_from_equirectangular isfile o listdir
           ≠ Ok evs.
Proof.
  intros Hin Hacc Hmd Hfile.
  assert (Hp : ∀ g', pano_events isfile o g' i
               = Raise (Exception ("The corresponding mask for " +:+ i
                                   +:+ " does not exist!!!"))).
  { intros g'. unfold pano_events, load_companions. unfold accepted in Hacc.
    rewrite Hacc, Hmd, Hfile. reflexivity. }
  split; [apply Hp|].
  intros evs. unfold generate_planar_projections_from_equirectangular.
  destruct (check_crop_factor _); [|discriminate].
  destruct (sample_grid _ _) as [g'|]; [|discriminate]. cbn.
  eapply batch_events_raise; [exact Hin | apply Hp].
Qed.

Lemma missing_mask_aborts_witness :
  pano_events (λ _, false) full_options small_grid "pano.png"
  = Raise (Exception "The corresponding mask for pano.png does not exist!!!")
  ∧ ∀ evs,
      generate_planar_projections_from_equirectangular (λ _, false)
        full_options ["notes.txt"; "pano.png"] ≠ Ok evs.
Proof.
  apply (missing_mask_aborts (λ _, false) full_options small_grid
           ["notes.txt"; "pano.png"] "pano.png" "masks").
  - apply list_elem_of_lookup. exists 1%nat. reflexivity.
  - reflexivity.
  - reflexivity.
  - reflexivity.
Defined.

Lemma substring_append_skip (p i : string) (n m : nat) :
  substring (String.length p + n) m (p +:+ i) = substring n m i.
Proof. induction p as [|c p IH]; simpl; [reflexivity | exact IH]. Qed.

Lemma lower_length (s : string) : String.length (lower s) = String.length s.
Proof. induction s as [|c s IH]; simpl; [reflexivity | f_equal; exact IH]. Qed.

Lemma endswith_length (s suf : string) :
  endswith s suf = true → (String.length suf ≤ String.length s)%nat.
Proof.
  unfold endswith. intros H. apply andb_true_iff in H as [H _].
  apply Nat.leb_le, H.
Qed.

(** A suffix test on a path is a test on its last component, when that
    component is long enough. *)
Lemma endswith_path (p i suf : string) :
  (String.length suf ≤ String.length i)%nat →
  endswith (p +:+ i) suf = endswith i suf.
Proof.
  intros Hlen. unfold endswith. rewrite string_length_append.
  replace (String.length p + String.length i - String.length suf)%nat
    with (String.length p + (String.length i - String.length suf))%nat
    by lia.
  rewrite substring_append_skip.
  replace (String.length suf <=? String.length p + String.length i)%nat
    with true by (symmetry; apply Nat.leb_le; lia).
  replace (String.length suf <=? String.length i)%nat
    with true by (symmetry; apply Nat.leb_le; lia).
  reflexivity.
Qed.

Lemma accepted_length (exts : list string) (i : string) :
  Forall (λ e, String.length e = 4%nat ∨ String.length e = 5%nat) exts →
  accepted exts i = true → (4 ≤ String.length i)%nat.
Proof.
  intros Hexts Hacc. unfold accepted, endswith_any in Hacc.
  apply existsb_exists in Hacc as (e & He & Hend).
  apply list_elem_of_In in He. rewrite Forall_forall in Hexts.
  apply endswith_length in Hend. rewrite lower_length in Hend.
  destruct (Hexts e He); lia.
Qed.

Lemma path_join_endswith (d i suf : string) :
  String.length suf = 4%nat → (4 ≤ String.length i)%nat →
  endswith (path_join d i) suf = endswith i suf.
Proof.
  intros Hs Hi. unfold path_join.
  rewrite (endswith_path d ("/" +:+ i))
    by (rewrite string_length_append; lia).
  apply endswith_path. lia.
Qed.

(** X12: the extension filter is case-blind and lets [.jpeg] and [.exr]
    through, but the HDR lookup accepts only names ending in lower-case
    [.png] or [.jpg]: any other accepted panorama makes the single-exposure
    generator (with HDR input, its mask being present) raise "Image format
    ... is not supported", and makes the two-exposure generator raise an
    exception in every case. *)
Theorem hdr_lookup_format (isfile : string → bool) (g : SampleGrid)
    (i : string) :
  endswith i ".png" = false → endswith i ".jpg" = false →
  (∀ (o : Options) (hd : string),
     accepted image_exts i = true →
     hdr_dir o = Some hd → is_HDR o = true →
     (∀ md, mask_dir o = Some md → isfile (path_join md i) = true) →
     pano_events isfile o g i
     = Raise (Exception
                ("Image format for " +:+ i +:+ " is not supported!!!")))
  ∧ (∀ o2 : Options2,
       accepted [".jpg"; ".png"; ".jpeg"] i = true →
       ∃ msg, pano_events2 isfile o2 g i = Raise (Exception msg)).
Proof.
  intros Hpng Hjpg. split.
  - intros o hd Hacc Hhd HHDR Hmask.
    assert (Hlen : (4 ≤ String.length i)%nat).
    { apply (accepted_length image_exts); [|exact Hacc].
      unfold image_exts.
      repeat first [apply List.Forall_nil
                   | apply List.Forall_cons; [cbn; auto|]]. }
    unfold pano_events, load_companions. unfold accepted in Hacc.
    rewrite Hacc, Hhd, HHDR.
    rewrite !path_join_endswith by (reflexivity || exact Hlen).
    rewrite Hpng, Hjpg.
    destruct (mask_dir o) as [md|]; [rewrite (Hmask md eq_refl)|];
      reflexivity.
  - intros o2 Hacc.
    assert (Hlen : (4 ≤ String.length i)%nat).
    { apply (accepted_length [".jpg"; ".png"; ".jpeg"]); [|exact Hacc].
      repeat first [apply List.Forall_nil
                   | apply List.Forall_cons; [cbn; auto|]]. }
    unfold pano_events2, load_companions2, require_file, exposure_addr.
    unfold accepted in Hacc. rewrite Hacc.
    rewrite !path_join_endswith by (reflexivity || exact Hlen).
    rewrite Hpng, Hjpg.
    repeat match goal with
           | |- context [if isfile ?a then _ else _] => destruct (isfile a)
           end; cbn; eexists; reflexivity.
Qed.

Lemma hdr_lookup_format_witness :
  pano_events (λ _, true) full_options small_grid "pano.jpeg"
  = Raise (Exception "Image format for pano.jpeg is not supported!!!")
  ∧ ∃ msg, pano_events2 (λ _, true) lantern_options small_grid "pano.jpeg"
           = Raise (Exception msg).
Proof.
  destruct (hdr_lookup_format (λ _, true) small_grid "pano.jpeg"
              eq_refl eq_refl) as [H1 H2].
  split.
  - apply (H1 full_options "hdr"); reflexivity.
  - apply (H2 lantern_options). reflexivity.
Defined.

(** ** The ground-truth generator *)








(** X15: in ground-truth mode the pose of a panorama is looked up under its
    name without the last four characters, before anything is rendered:
    when the first accepted file has no pose under that key, the generator
    raises [KeyError]. *)
Theorem gt_missing_pose (o : OptionsGT) (g : SampleGrid)
    (poses : gmap string Matrix) (files_list rest : list string)
    (i : string) :
  check_crop_factor (gt_crop_factor o) = Ok () →
  sample_grid (gt_samples_per_im o) (gt_crop_factor o) = Ok g →
  List.filter (accepted image_exts) files_list = i :: rest →
  poses !! drop_last 4 i = None →
  generate_planar_projections_from_equirectangular_GT o poses files_list
  = Raise KeyError.
Proof.
  intros Hcheck Hgrid Hfirst Hkey.
  assert (Hacc : accepted image_exts i = true).
  { assert (Hin : In i (List.filter (accepted image_exts) files_list))
      by (rewrite Hfirst; left; reflexivity).
    apply filter_In in Hin. apply Hin. }
  unfold generate_planar_projections_from_equirectangular_GT.
  rewrite Hcheck, Hgrid. cbn [mbind Result_bind].
  rewrite (gt_batch_filter _ (accepted image_exts)).
  - rewrite Hfirst. cbn [gt_batch].
    assert (Hstep : ∀ st, gt_pano o g poses i st = Raise KeyError).
    { intros st. unfold gt_pano. unfold accepted in Hacc.
      rewrite Hacc, Hkey. reflexivity. }
    rewrite Hstep. reflexivity.
  - intros j st Hj. unfold gt_pano. unfold accepted in Hj. rewrite Hj.
    reflexivity.
Qed.

Lemma gt_missing_pose_witness :
  generate_planar_projections_from_equirectangular_GT exposure_options
    {["pano" := sample_pose]} ["notes.txt"; "pano.jpeg"] = Raise KeyError.
Proof.
  apply (gt_missing_pose exposure_options grid8 {["pano" := sample_pose]}
           ["notes.txt"; "pano.jpeg"] [] "pano.jpeg" eq_refl eq_refl
           eq_refl).
  apply lookup_singleton_ne. discriminate.
Defined.

(** X16: the ground-truth generator reads its local [mask] in the direction
    loop before any statement has bound it: with a [mask_dir] argument, a
    grid that is not empty and a first accepted file whose pose is on
    record, the call raises [UnboundLocalError] at the first direction. *)
Theorem gt_mask_dir_unbound (o : OptionsGT) (g : SampleGrid)
    (poses : gmap string Matrix) (files_list rest : list string)
    (i md : string) (P : Matrix) :
  check_crop_factor (gt_crop_factor o) = Ok () →
  sample_grid (gt_samples_per_im o) (gt_crop_factor o) = Ok g →
  yaw_pitch_pairs g ≠ [] →
  gt_mask_dir o = Some md →
  List.filter (accepted image_exts) files_list = i :: rest →
  poses !! drop_last 4 i = Some P →
  generate_planar_projections_from_equirectangular_GT o poses files_list
  = Raise UnboundLocalError.
Proof.
  intros Hcheck Hgrid Hdirs Hmask Hfirst Hkey.
  assert (Hacc : accepted image_exts i = true).
  { assert (Hin : In i (List.filter (accepted image_exts) files_list))
      by (rewrite Hfirst; left; reflexivity).
    apply filter_In in Hin. apply Hin. }
  unfold generate_planar_projections_from_equirectangular_GT.
  rewrite Hcheck, Hgrid. cbn [mbind Result_bind].
  rewrite (gt_batch_filter _ (accepted image_exts)).
  - rewrite Hfirst. cbn [gt_batch].
    assert (Hstep : gt_pano o g poses i (mkGTState false [] [])
                    = Raise UnboundLocalError).
    { unfold gt_pano. unfold accepted in Hacc. rewrite Hacc, Hkey.
      destruct (yaw_pitch_pairs g) as [|d dirs]; [contradiction|].
      cbn [gt_directions]. unfold gt_direction. rewrite Hmask.
      reflexivity. }
    rewrite Hstep. reflexivity.
  - intros j st Hj. unfold gt_pano. unfold accepted in Hj. rewrite Hj.
    reflexivity.
Qed.

Lemma gt_mask_dir_unbound_witness :
  generate_planar_projections_from_equirectangular_GT gt_masked_options
    {["pano" := sample_pose]} ["pano.png"] = Raise UnboundLocalError.
Proof.
  apply (gt_mask_dir_unbound gt_masked_options grid8
           {["pano" := sample_pose]} ["pano.png"] [] "pano.png" "masks"
           sample_pose eq_refl eq_refl).
  - discriminate.
  - reflexivity.
  - reflexivity.
  - apply lookup_singleton_eq.
Defined.

(** ** Rigidity of the derived poses *)

Section Rigid.
Local Open Scope R_scope.

Lemma inv_euler_transpose (a b c : R) :
  inv (from_euler_XYZ a b c) = Ok (transpose (from_euler_XYZ a b c)).
Proof.
  pose proof (det3_from_euler a b c) as Hdet.
  pose proof (sin2_cos2 a) as Ha. pose proof (sin2_cos2 b) as Hb.
  pose proof (sin2_cos2 c) as Hc. unfold Rsqr in Ha, Hb, Hc.
  revert Hdet. unfold transpose. matrix_eval. unfold inv.
  cbn [det3].
  generalize dependent (sin a). generalize dependent (cos a).
  generalize dependent (sin b). generalize dependent (cos b).
  generalize dependent (sin c). generalize dependent (cos c).
  intros cc sc Hc cb sb Hb ca sa Ha Hdet.
  destruct (Req_dec_T _ 0) as [Hz|_]; [exfalso; lra|].
  rewrite Hdet. clear Hdet.
  repeat f_equal; unfold Rdiv; rewrite Rinv_1, Rmult_1_r; nsatz.
Qed.


Lemma shape3 (a b c d e f g h i : R) :
  is_3x3 [[a; b; c]; [d; e; f]; [g; h; i]].
Proof. split; [reflexivity | repeat constructor]. Qed.

Lemma matmul_3x3 (A B : Matrix) : is_3x3 A → is_3x3 B → is_3x3 (matmul A B).
Proof. intros HA HB. explicit3 rows3 A. explicit3 rows3 B. apply shape3. Qed.

Lemma transpose_3x3 (A : Matrix) : is_3x3 A → is_3x3 (transpose A).
Proof. intros HA. explicit3 rows3 A. apply shape3. Qed.

Lemma matmul_assoc3 (A B C : Matrix) :
  is_3x3 A → is_3x3 B → is_3x3 C →
  matmul (matmul A B) C = matmul A (matmul B C).
Proof.
  intros HA HB HC. explicit3 rows3 A. explicit3 rows3 B. explicit3 rows3 C.
  matrix3_eq.
Qed.

Lemma transpose_matmul3 (A B : Matrix) :
  is_3x3 A → is_3x3 B →
  transpose (matmul A B) = matmul (transpose B) (transpose A).
Proof. intros HA HB. explicit3 rows3 A. explicit3 rows3 B. matrix3_eq. Qed.

Lemma transpose_transpose3 (A : Matrix) :
  is_3x3 A → transpose (transpose A) = A.
Proof. intros HA. explicit3 rows3 A. reflexivity. Qed.

Lemma matmul_identity_l3 (A : Matrix) : is_3x3 A → matmul identity3 A = A.
Proof. intros HA. explicit3 rows3 A. matrix3_eq. Qed.

Lemma matmul_identity_r3 (A : Matrix) : is_3x3 A → matmul A identity3 = A.
Proof. intros HA. explicit3 rows3 A. matrix3_eq. Qed.

Lemma from_euler_3x3 (a b c : R) : is_3x3 (from_euler_XYZ a b c).
Proof.
  destruct (from_euler_rows a b c)
    as (? & ? & ? & ? & ? & ? & ? & ? & ? & ->).
  apply shape3.
Qed.

Lemma block3_3x3 (P : Matrix) : is_4x4 P → is_3x3 (block3 P).
Proof.
  intros HP.
  destruct (is_4x4_rows P HP)
    as (? & ? & ? & ? & ? & ? & ? & ? & ? & ? & ? & ? & ? & ? & ? & ?
        & ->).
  apply shape3.
Qed.

(** X17: the rotation of a derived pose.  It is the panorama rotation times
    the transpose of the Euler rotation [E] of (pitch, -yaw, 0); applying
    [E] to it gives the panorama rotation back; and when the panorama
    rotation is orthogonal, so is the derived one: a rigid pose stays
    rigid. *)
Theorem derived_rotation_rigid (P : Matrix) (u v : Q) :
  is_4x4 P →
  let E := from_euler_XYZ (Q2R (torch_pi * v / 180))
             (- Q2R (torch_pi * u / 180)) 0 in
  ∃ pose,
    perspective_camera_pose P (u, v) = Ok pose
    ∧ block3 pose = matmul (block3 P) (transpose E)
    ∧ matmul (block3 pose) E = block3 P
    ∧ (matmul (block3 P) (transpose (block3 P)) = identity3 →
       matmul (block3 pose) (transpose (block3 pose)) = identity3).
Proof.
  intros HP E.
  destruct (perspective_pose_block P u v HP)
    as (E_inv & pose & Hinv & _ & Hl & Hpose & _ & Hblock & _).
  cbn zeta in Hinv, Hl. fold E in Hinv, Hl.
  unfold E in Hinv. rewrite inv_euler_transpose in Hinv. fold E in Hinv.
  injection Hinv as <-.
  pose proof (block3_3x3 P HP) as HR.
  pose proof (from_euler_3x3 (Q2R (torch_pi * v / 180))
                (- Q2R (torch_pi * u / 180)) 0) as HE.
  fold E in HE. pose proof (transpose_3x3 E HE) as HEt.
  exists pose. split; [exact Hpose|]. split; [exact Hblock|].
  rewrite Hblock. split.
  - rewrite matmul_assoc3, Hl by assumption.
    apply matmul_identity_r3, HR.
  - intros Horth.
    rewrite transpose_matmul3, transpose_transpose3 by assumption.
    rewrite matmul_assoc3 by (try apply matmul_3x3; try apply transpose_3x3;
                               assumption).
    rewrite <- (matmul_assoc3 (transpose E)), Hl
      by (try apply transpose_3x3; assumption).
    rewrite matmul_identity_l3 by (apply transpose_3x3; assumption).
    exact Horth.
Qed.
End Rigid.

Lemma derived_rotation_rigid_witness :
  is_4x4 sample_pose
  ∧ ∃ pose,
      perspective_camera_pose sample_pose (-90, 45) = Ok pose
      ∧ matmul (block3 pose) (transpose (block3 pose)) = identity3.
Proof.
  assert (HP : is_4x4 sample_pose)
    by (split; [reflexivity | repeat constructor]).
  split; [exact HP|].
  destruct (derived_rotation_rigid sample_pose (-90) 45 HP)
    as (pose & Hpose & _ & _ & Hrigid).
  exists pose. split; [exact Hpose|].
  apply Hrigid. unfold sample_pose. matrix3_eq.
Defined.

(** ** The resolution heuristic *)

Lemma int_sqrt_spec (x : Q) :
  0 <= x →
  (0 <= int_sqrt x)%Z
  ∧ inject_Z (int_sqrt x * int_sqrt x) <= x
  ∧ x < inject_Z ((int_sqrt x + 1) * (int_sqrt x + 1)).
Proof.
  intros Hx. unfold int_sqrt.
  assert (Hf : (0 <= Qfloor x)%Z).
  { change 0%Z with (Qfloor 0). apply Qfloor_resp_le, Hx. }
  pose proof (Z.sqrt_spec (Qfloor x) Hf) as [Hlo Hhi].
  split; [apply Z.sqrt_nonneg|]. split.
  - apply Qle_trans with (inject_Z (Qfloor x)); [|apply Qfloor_le].
    rewrite <- Zle_Qle. exact Hlo.
  - apply Qlt_le_trans with (inject_Z (Qfloor x + 1)); [apply Qlt_floor|].
    rewrite <- Zle_Qle. unfold Z.succ in Hhi. lia.
Qed.

Lemma resolution_skips (shape : string → option (Z * Z))
    (image_dir : string) (skipped l : list string) (n : Z) :
  Forall (λ j, accepted image_exts j = false) skipped →
  compute_resolution_from_equirect shape image_dir (skipped ++ l) n
  = compute_resolution_from_equirect shape image_dir l n.
Proof.
  induction 1 as [|j skipped Hj _ IH]; [reflexivity|].
  cbn [app compute_resolution_from_equirect]. unfold accepted in Hj.
  rewrite Hj. exact IH.
Qed.

(** X18: the resolution heuristic looks only at the first directory entry
    with an image extension.  With a positive image count [n] and that
    entry decoded as [rows] x [cols], it returns a square size (r, r) with
    r >= 0 and [n * r^2 <= rows * cols < n * (r + 1)^2]; with [n = 0] it
    raises [ZeroDivisionError]; with no such entry it raises [ValueError],
    whatever [n] is. *)
Theorem resolution_heuristic (shape : string → option (Z * Z))
    (image_dir : string) (skipped rest : list string) (i : string)
    (rows cols n : Z) :
  Forall (λ j, accepted image_exts j = false) skipped →
  (compute_resolution_from_equirect shape image_dir skipped n
   = inl (ValueError "No images found in the directory."))
  ∧ (accepted image_exts i = true →
     shape (path_join image_dir i) = Some (rows, cols) →
     compute_resolution_from_equirect shape image_dir (skipped ++ i :: rest)
       0 = inl ZeroDivisionError)
  ∧ (accepted image_exts i = true →
     shape (path_join image_dir i) = Some (rows, cols) →
     (0 <= rows)%Z → (0 <= cols)%Z → (0 < n)%Z →
     ∃ r, compute_resolution_from_equirect shape image_dir
            (skipped ++ i :: rest) n = inr (r, r)
          ∧ (0 <= r)%Z
          ∧ (n * (r * r) <= rows * cols)%Z
          ∧ (rows * cols < n * ((r + 1) * (r + 1)))%Z).
Proof.
  intros Hskip. split; [|split].
  - rewrite <- (app_nil_r skipped), resolution_skips by exact Hskip.
    reflexivity.
  - intros Hacc Hshape. rewrite resolution_skips by exact Hskip.
    cbn [compute_resolution_from_equirect]. unfold accepted in Hacc.
    rewrite Hacc, Hshape. reflexivity.
  - intros Hacc Hshape Hrows Hcols Hn.
    set (x := inject_Z (rows * cols) / inject_Z n).
    assert (Hnq : 0 < inject_Z n).
    { change 0 with (inject_Z 0). rewrite <- Zlt_Qlt. exact Hn. }
    assert (Hx : 0 <= x).
    { unfold x. apply Qle_shift_div_l; [exact Hnq|].
      rewrite Qmult_0_l. change 0 with (inject_Z 0). rewrite <- Zle_Qle.
      nia. }
    destruct (int_sqrt_spec x Hx) as (Hr0 & Hlo & Hhi).
    exists (int_sqrt x). split.
    + rewrite resolution_skips by exact Hskip.
      cbn [compute_resolution_from_equirect].
      unfold accepted in Hacc. rewrite Hacc, Hshape.
      replace (n =? 0)%Z with false by (symmetry; apply Z.eqb_neq; lia).
      fold x. apply num_lt_false in Hx. rewrite Hx. reflexivity.
    + split; [exact Hr0|].
      assert (Hxn : x * inject_Z n == inject_Z (rows * cols)).
      { unfold x. field. lra. }
      split.
      * rewrite Zle_Qle, (inject_Z_mult n).
        assert (inject_Z (int_sqrt x * int_sqrt x) * inject_Z n
                <= x * inject_Z n)
          by (apply Qmult_le_compat_r; [exact Hlo | lra]).
        clearbody x.
        generalize dependent (inject_Z (int_sqrt x * int_sqrt x)).
        generalize dependent (inject_Z (rows * cols)).
        generalize dependent (inject_Z n). intros. clear - H Hxn. lra.
      * rewrite Zlt_Qlt, (inject_Z_mult n).
        assert (x * inject_Z n
                < inject_Z ((int_sqrt x + 1) * (int_sqrt x + 1)) * inject_Z n)
          by (apply Qmult_lt_compat_r; [exact Hnq | exact Hhi]).
        clearbody x.
        generalize dependent (inject_Z ((int_sqrt x + 1) * (int_sqrt x + 1))).
        generalize dependent (inject_Z (rows * cols)).
        generalize dependent (inject_Z n). intros. clear - H Hxn. lra.
Qed.

Lemma resolution_heuristic_witness :
  compute_resolution_from_equirect (λ _, Some (1024, 2048)%Z) "data"
    ["notes.txt"] 8 = inl (ValueError "No images found in the directory.")
  ∧ ∃ r, compute_resolution_from_equirect (λ _, Some (1024, 2048)%Z) "data"
           ["notes.txt"; "pano.png"; "other.png"] 8 = inr (r, r)
         ∧ (8 * (r * r) <= 1024 * 2048)%Z
         ∧ (1024 * 2048 < 8 * ((r + 1) * (r + 1)))%Z.
Proof.
  assert (Hskip : Forall (λ j, accepted image_exts j = false) ["notes.txt"])
    by (repeat constructor).
  destruct (resolution_heuristic (λ _, Some (1024, 2048)%Z) "data"
              ["notes.txt"] ["other.png"] "pano.png" 1024 2048 8 Hskip)
    as (Hnone & _ & Hsome).
  split; [exact Hnone|].
  destruct (Hsome eq_refl eq_refl) as (r & Hr & _ & Hlo & Hhi); try lia.
  exists r. repeat split; assumption.
Defined.

(** ** The caller *)

Lemma main_bind_never (ExtExn A B : Type) (m : MainExn ExtExn + A)
    (k : A → MainExn ExtExn + B) (b : B) :
  (∀ a, k a ≠ inr b) → Main_bind ExtExn A B k m ≠ inr b.
Proof. intros Hk. destruct m as [e|a]; [discriminate | apply Hk]. Qed.

(** X19: [main] binds [perspective_masks] and [perspective_hdrs] only in its
    equirectangular branch and reads them afterwards on every path: for any
    other camera type it never completes, whatever its collaborators
    answer; and when they all succeed and the COLMAP model path is the
    default one, it ends in [UnboundLocalError] on [perspective_masks]. *)
Theorem main_needs_equirectangular (ExtExn : Type) (self : Self)
    (world : World ExtExn) :
  camera_type self ≠ "equirectangular" →
  main ExtExn self world ≠ inr ()
  ∧ (colmap_model_path_is_default self = true →
     (∀ e, copy_images ExtExn world ≠ inl e) →
     (∀ e, copy_eval_images ExtExn world ≠ inl e) →
     (∃ n, list_images ExtExn world = inr (S n)) →
     (∀ e, export_depth ExtExn world ≠ inl e) →
     main ExtExn self world = inl (UnboundLocal ExtExn "perspective_masks")).
Proof.
  intros Hcam. apply String.eqb_neq in Hcam.
  unfold main. rewrite Hcam. split.
  - apply main_bind_never. intros req. cbn [mbind Main_bind].
    do 4 (apply main_bind_never; intros ?). discriminate.
  - intros Hdef Hcopy Heval [n Hlist] Hdepth. rewrite Hdef, Hlist.
    destruct (skip_colmap self) eqn:Hskip.
    + destruct (skip_image_processing self); cbn.
      * destruct (export_depth ExtExn world) as [e|[]] eqn:Hd;
          [exfalso; apply (Hdepth e); reflexivity | reflexivity].
      * destruct (copy_images ExtExn world) as [e|m] eqn:Hc;
          [exfalso; apply (Hcopy e); reflexivity|].
        destruct (eval_data self); cbn; [|reflexivity].
        destruct (copy_eval_images ExtExn world) as [e|[]] eqn:He;
          [exfalso; apply (Heval e); reflexivity | reflexivity].
    + destruct (skip_image_processing self); cbn; [reflexivity|].
      destruct (copy_images ExtExn world) as [e|m] eqn:Hc;
        [exfalso; apply (Hcopy e); reflexivity|].
      destruct (eval_data self); cbn; [|reflexivity].
      destruct (copy_eval_images ExtExn world) as [e|[]] eqn:He;
        [exfalso; apply (Heval e); reflexivity | reflexivity].
Qed.

Lemma main_needs_equirectangular_witness :
  main Empty_set perspective_self quiet_world
  = inl (UnboundLocal Empty_set "perspective_masks").
Proof.
  assert (Hcam : camera_type perspective_self ≠ "equirectangular")
    by discriminate.
  apply (proj2 (main_needs_equirectangular Empty_set perspective_self
                  quiet_world Hcam)).
  - reflexivity.
  - intros e. discriminate.
  - intros e. discriminate.
  - exists 9%nat. reflexivity.
  - intros e. discriminate.
Defined.

(** X20: the lantern [main] passes the four locals of the two-exposure
    generator to the copy step without having bound them outside its
    equirectangular branch: for any other camera type it cannot complete
    while image processing is on; with image processing skipped, the
    default COLMAP model path and collaborators that succeed, it
    completes. *)
Theorem lantern_main_needs_equirectangular (ExtExn : Type) (self : Self)
    (world : LanternWorld ExtExn) :
  camera_type self ≠ "equirectangular" →
  (skip_image_processing self = false →
   lantern_main ExtExn self world ≠ inr ())
  ∧ (skip_image_processing self = true →
     colmap_model_path_is_default self = true →
     (∃ n, l_list_images ExtExn world = inr (S n)) →
     l_run_colmap ExtExn world = inr () →
     l_export_depth ExtExn world = inr () →
     l_cameras_bin_exists ExtExn world = true →
     l_save_transforms_multiple_exposures ExtExn world = inr () →
     lantern_main ExtExn self world = inr ()).
Proof.
  intros Hcam. apply String.eqb_neq in Hcam.
  unfold lantern_main. rewrite Hcam. split.
  - intros ->. apply main_bind_never. intros req. cbn [mbind Main_bind negb].
    intros H. destruct (l_copy_images ExtExn world) as [e|n]; [discriminate|].
    cbn [mbind Main_bind call] in H.
    destruct (eval_data self);
      [destruct (l_copy_eval_images ExtExn world) as [e|[]];
         [discriminate|]|];
      cbn [mbind Main_bind call] in H;
      (destruct (l_mkdir_masks1 ExtExn world) as [e|[]]; discriminate).
  - intros -> -> [n ->] -> -> -> ->.
    destruct (skip_colmap self); reflexivity.
Qed.

Lemma lantern_main_needs_equirectangular_witness :
  lantern_main Empty_set perspective_self quiet_lantern_world ≠ inr ().
Proof.
  assert (Hcam : camera_type perspective_self ≠ "equirectangular")
    by discriminate.
  apply (proj1 (lantern_main_needs_equirectangular Empty_set
                  perspective_self quiet_lantern_world Hcam)).
  reflexivity.
Defined.

(** ** Where the companion rasters are looked up *)

Lemma has_dot_append (s t : string) :
  has_dot (s +:+ t) = has_dot s || has_dot t.
Proof.
  induction s as [|c s IH]; simpl; [reflexivity|].
  rewrite IH. apply orb_assoc.
Qed.

Lemma prefix_refl (s : string) : String.prefix s s = true.
Proof.
  induction s as [|c s IH]; [reflexivity|].
  cbn [String.prefix]. destruct (ascii_dec c c); [exact IH | contradiction].
Qed.

Lemma string_append_nil_r (s : string) : s +:+ "" = s.
Proof.
  induction s as [|c s IH]; [reflexivity|].
  change (String c s +:+ "") with (String c (s +:+ "")). f_equal. exact IH.
Qed.

(** In a text without dot, followed by an extension, [replace] touches the
    extension only. *)
Lemma replace_extension (s new : string) (c1 c2 c3 : ascii) :
  let ext := String "." (String c1 (String c2 (String c3 EmptyString))) in
  has_dot s = false →
  replace (s +:+ ext) ext new = s +:+ new.
Proof.
  intros ext Hs. unfold replace.
  induction s as [|c s IH].
  - change ("" +:+ ext) with ext. change ("" +:+ new) with new.
    unfold ext at 2. cbn [replace_from]. fold ext. rewrite prefix_refl.
    cbn [String.length Nat.sub replace_from ext].
    apply string_append_nil_r.
  - cbn [has_dot] in Hs. apply orb_false_iff in Hs as [Hc Hs].
    apply Ascii.eqb_neq in Hc.
    change (String c s +:+ ext) with (String c (s +:+ ext)).
    cbn [replace_from]. unfold ext at 1. cbn [String.prefix].
    destruct (ascii_dec "." c) as [Heq|_]; [congruence|].
    change (String c s +:+ new) with (String c (s +:+ new)).
    f_equal. apply IH, Hs.
Qed.

Lemma string_append_assoc (a b c : string) :
  (a +:+ b) +:+ c = a +:+ (b +:+ c).
Proof.
  induction a as [|x a IH]; [reflexivity|].
  change ((String x a +:+ b) +:+ c) with (String x ((a +:+ b) +:+ c)).
  change (String x a +:+ (b +:+ c)) with (String x (a +:+ (b +:+ c))).
  f_equal. exact IH.
Qed.

Lemma path_join_ext (d name ext : string) :
  path_join d (name +:+ ext) = path_join d name +:+ ext.
Proof.
  unfold path_join. rewrite !string_append_assoc. reflexivity.
Qed.

Lemma path_join_no_dot (d name : string) :
  has_dot d = false → has_dot name = false →
  has_dot (path_join d name) = false.
Proof.
  intros Hd Hn. unfold path_join. rewrite !has_dot_append, Hd, Hn.
  reflexivity.
Qed.

Lemma endswith_append (s ext : string) : endswith (s +:+ ext) ext = true.
Proof.
  rewrite endswith_path by lia. unfold endswith.
  rewrite Nat.leb_refl, Nat.sub_diag.
  pose proof (substring_append_left ext "") as H.
  rewrite string_append_nil_r in H. rewrite H. apply String.eqb_refl.
Qed.

Lemma lower_append (s t : string) : lower (s +:+ t) = lower s +:+ lower t.
Proof.
  induction s as [|c s IH]; [reflexivity|].
  change (String c s +:+ t) with (String c (s +:+ t)).
  cbn [lower]. rewrite IH. reflexivity.
Qed.

Lemma accepted_png (name : string) (exts : list string) :
  In ".png" exts → accepted exts (name +:+ ".png") = true.
Proof.
  intros Hin. unfold accepted, endswith_any. apply existsb_exists.
  exists ".png". split; [exact Hin|].
  rewrite lower_append. apply endswith_append.
Qed.

Lemma exposure_addr_png (d name tag : string) :
  has_dot d = false → has_dot name = false →
  exposure_addr d (name +:+ ".png") tag
  = Ok (path_join d (name +:+ ("_" +:+ tag +:+ ".exr"))).
Proof.
  intros Hd Hn. unfold exposure_addr.
  rewrite path_join_ext, endswith_append.
  rewrite (replace_extension (path_join d name) ".exr" "p" "n" "g")
    by (apply path_join_no_dot; assumption).
  cbn [mbind Result_bind].
  rewrite (replace_extension (path_join d name) _ "e" "x" "r")
    by (apply path_join_no_dot; assumption).
  rewrite <- path_join_ext. reflexivity.
Qed.

Lemma load_companions2_png (isfile : string → bool) (o2 : Options2)
    (name : string) :
  has_dot name = false →
  has_dot (mask_e1_dir o2) = false → has_dot (mask_e2_dir o2) = false →
  has_dot (e1_dir o2) = false → has_dot (e2_dir o2) = false →
  load_companions2 isfile o2 (name +:+ ".png") = Ok ()
  ↔ isfile (path_join (mask_e1_dir o2) (name +:+ "_e1.png")) = true
    ∧ isfile (path_join (mask_e2_dir o2) (name +:+ "_e2.png")) = true
    ∧ isfile (path_join (e1_dir o2) (name +:+ "_e1.exr")) = true
    ∧ isfile (path_join (e2_dir o2) (name +:+ "_e2.exr")) = true.
Proof.
  intros Hn H1 H2 H3 H4. unfold load_companions2, require_file.
  rewrite !exposure_addr_png by assumption.
  rewrite !path_join_ext.
  rewrite !(replace_extension _ _ "p" "n" "g")
    by (apply path_join_no_dot; assumption).
  rewrite <- !path_join_ext.
  change ("_" +:+ "e1" +:+ ".exr") with "_e1.exr".
  change ("_" +:+ "e2" +:+ ".exr") with "_e2.exr".
  destruct (isfile (path_join (mask_e1_dir o2) (name +:+ "_e1.png")));
    cbn [mbind Result_bind];
    [|split; [discriminate | intros (? & ? & ? & ?); discriminate]].
  destruct (isfile (path_join (mask_e2_dir o2) (name +:+ "_e2.png")));
    cbn [mbind Result_bind];
    [|split; [discriminate | intros (? & ? & ? & ?); discriminate]].
  destruct (isfile (path_join (e1_dir o2) (name +:+ "_e1.exr")));
    cbn [mbind Result_bind];
    [|split; [discriminate | intros (? & ? & ? & ?); discriminate]].
  destruct (isfile (path_join (e2_dir o2) (name +:+ "_e2.exr")));
    [|split; [discriminate | intros (? & ? & ? & ?); discriminate]].
  split; auto.
Qed.

(** X21: where the companions of a panorama [name.png] must be, when neither
    the directories nor [name] contain a dot.  The single-exposure
    generator with HDR input processes it exactly when its mask, if masks
    are in use, is [<mask_dir>/name.png] and its HDR raster is
    [<hdr_dir>/name.exr]; the two-exposure generator exactly when
    [<mask_e1_dir>/name_e1.png], [<mask_e2_dir>/name_e2.png],
    [<e1_dir>/name_e1.exr] and [<e2_dir>/name_e2.exr] all exist. *)
Theorem companion_files (isfile : string → bool) (g : SampleGrid)
    (name : string) :
  has_dot name = false →
  (∀ (o : Options) (hd : string),
     hdr_dir o = Some hd → is_HDR o = true → has_dot hd = false →
     ((∃ evs, pano_events isfile o g (name +:+ ".png") = Ok evs)
      ↔ (∀ md, mask_dir o = Some md
               → isfile (path_join md (name +:+ ".png")) = true)
        ∧ isfile (path_join hd (name +:+ ".exr")) = true))
  ∧ (∀ o2 : Options2,
       has_dot (mask_e1_dir o2) = false → has_dot (mask_e2_dir o2) = false →
       has_dot (e1_dir o2) = false → has_dot (e2_dir o2) = false →
       ((∃ evs, pano_events2 isfile o2 g (name +:+ ".png") = Ok evs)
        ↔ isfile (path_join (mask_e1_dir o2) (name +:+ "_e1.png")) = true
          ∧ isfile (path_join (mask_e2_dir o2) (name +:+ "_e2.png")) = true
          ∧ isfile (path_join (e1_dir o2) (name +:+ "_e1.exr")) = true
          ∧ isfile (path_join (e2_dir o2) (name +:+ "_e2.exr")) = true)).
Proof.
  intros Hname. split.
  - intros o hd Hhd HHDR Hdot.
    unfold pano_events, load_companions.
    pose proof (accepted_png name image_exts) as Hacc. unfold accepted in Hacc.
    rewrite Hacc by (right; left; reflexivity).
    rewrite Hhd, HHDR, !path_join_ext, endswith_append.
    rewrite (replace_extension (path_join hd name) ".exr" "p" "n" "g")
      by (apply path_join_no_dot; assumption).
    rewrite <- !path_join_ext. cbn [mbind Result_bind].
    destruct (mask_dir o) as [md|]; cbn [mbind Result_bind];
      repeat match goal with
             | |- context [isfile ?a] => destruct (isfile a) eqn:?
             end; cbn [mbind Result_bind];
      (split;
       [ first [ intros [? H]; discriminate H
               | intros _; split;
                 [ intros ? Heq;
                   first [discriminate Heq | injection Heq as <-; assumption]
                 | reflexivity ] ]
       | first [ intros _; eexists; reflexivity
               | intros [Hm Hh];
                 first [ discriminate Hh
                       | pose proof (Hm _ eq_refl); congruence ] ] ]).
  - intros o2 H1 H2 H3 H4.
    rewrite <- (load_companions2_png isfile o2 name) by assumption.
    unfold pano_events2.
    pose proof (accepted_png name [".jpg"; ".png"; ".jpeg"]) as Hacc.
    unfold accepted in Hacc. rewrite Hacc by (right; left; reflexivity).
    destruct (load_companions2 isfile o2 (name +:+ ".png")) as [[]|e];
      cbn [mbind Result_bind]; split; intros H;
      [reflexivity | eexists; reflexivity | destruct H; discriminate
      | discriminate].
Qed.

Lemma companion_files_witness :
  (∃ evs, pano_events (λ p, String.eqb p "hdr/pano.exr"
                            || String.eqb p "masks/pano.png")
            full_options small_grid "pano.png" = Ok evs)
  ∧ ¬ (∃ evs, pano_events2 (λ _, false) lantern_options small_grid
                "pano.png" = Ok evs).
Proof.
  assert (Hname : has_dot "pano" = false) by reflexivity.
  split.
  - destruct (companion_files
                (λ p, String.eqb p "hdr/pano.exr"
                      || String.eqb p "masks/pano.png")
                small_grid "pano" Hname) as [H1 _].
    apply (H1 full_options "hdr" eq_refl eq_refl eq_refl).
    split; [intros md [= <-]|]; reflexivity.
  - destruct (companion_files (λ _, false) small_grid "pano" Hname)
      as [_ H2].
    intros H.
    apply (H2 lantern_options eq_refl eq_refl eq_refl eq_refl) in H.
    destruct H as [H _]. discriminate H.
Defined.
